(** * NodeMaterialRuntimeHelper: the uniform ledger and its per-draw replay

    A shallow embedding of
    [packages/dev/core/src/Materials/Node/Replay/nodeMaterialRuntimeHelper.ts].

    The helper waits for the build signal of a node material, then records one
    ledger entry per uniform input block and creates a shader material; on
    every bind of that shader material it walks the ledger and pushes one value
    per entry into the effect.

    Conventions of the embedding:
    - a JavaScript [number] is a binary64 [float]; an enumeration member is the
      integer it denotes, a [Z];
    - a value of type [any] is a [JsValue];
    - the classes the helper imports but does not define ([Matrix], the
      enumeration [NodeMaterialSystemValues]) are interfaces the development is
      parametric in;
    - [Matrix] objects live in a heap of cells, so that "the same matrix object"
      is "the same location"; what the mesh and the scene return is read as a
      value;
    - the calls received by the effect are recorded in a log, in call order;
      the methods of the effect, the mesh, the scene and the shader material
      are taken to return normally;
    - an exception raised by the helper itself is an explicit outcome. *)

From Stdlib Require Import ZArith Floats.
From stdpp Require Import base list strings.

Set Warnings "-inexact-float".

(** ** JavaScript values *)

(** The objects that reach the ledger. The four math classes carry their
    components; [ClassInstance n] is any other object whose [getClassName()]
    returns [n]; [PlainObject] has no [getClassName] method. *)
Inductive JsObject : Type :=
| Vector3 (x y z : float)
| Vector4 (x y z w : float)
| Color3 (r g b : float)
| Color4 (r g b a : float)
| ClassInstance (className : string)
| PlainObject.

Inductive JsValue : Type :=
| JsUndefined
| JsNull
| JsBoolean (b : bool)
| JsNumber (x : float)
| JsString (s : string)
| JsObj (o : JsObject).

(** [ToBoolean]: what [if (v)] tests. *)
Definition truthy (v : JsValue) : bool :=
  match v with
  | JsUndefined | JsNull => false
  | JsBoolean b => b
  | JsNumber x => negb (PrimFloat.eqb x 0 || PrimFloat.is_nan x)
  | JsString s => negb (String.eqb s "")
  | JsObj _ => true
  end.

(** [ToBoolean] of an optional enumeration member. *)
Definition truthy_kind (k : option Z) : bool :=
  match k with
  | None => false
  | Some n => negb (n =? 0)%Z
  end.

(** The method [getClassName], when the object has one, and its result. *)
Definition getClassName (o : JsObject) : option string :=
  match o with
  | Vector3 _ _ _ => Some "Vector3"
  | Vector4 _ _ _ _ => Some "Vector4"
  | Color3 _ _ _ => Some "Color3"
  | Color4 _ _ _ _ => Some "Color4"
  | ClassInstance n => Some n
  | PlainObject => None
  end.

(** The property read [value.a]. *)
Definition prop_a (o : JsObject) : JsValue :=
  match o with
  | Color4 _ _ _ a => JsNumber a
  | _ => JsUndefined
  end.

Inductive JsError : Type :=
| TypeError (message : string).

(** ** Interfaces of the imported classes *)

(** [core/Maths/math.vector]: the matrices, [Matrix.Identity()] and the product
    computed by [multiplyToRef]. *)
Class MatrixLib : Type := {
  Matrix : Type;
  Matrix_Identity : Matrix;
  multiply : Matrix -> Matrix -> Matrix
}.

(** [../Enums/nodeMaterialSystemValues]: the numeric value of each member the
    helper switches on. *)
Class NodeMaterialSystemValues : Type := {
  World : Z;
  WorldView : Z;
  WorldViewProjection : Z;
  View : Z;
  Projection : Z;
  ViewProjection : Z;
  CameraPosition : Z;
  FogColor : Z;
  DeltaTime : Z;
  CameraParameters : Z
}.

(** The members, in the order of the [case] labels. *)
Definition members {SV : NodeMaterialSystemValues} : list Z :=
  [World; WorldView; WorldViewProjection; View; Projection; ViewProjection;
   CameraPosition; FogColor; DeltaTime; CameraParameters].

(** An enumeration gives its members distinct values; the helper's test
    [if (entry.systemValueType)] moreover needs none of them to be [0]. *)
Definition enum_ok {SV : NodeMaterialSystemValues} : Prop :=
  NoDup members /\ 0%Z ∉ members.

(** ** The uniform ledger *)

(** [IUniformLedgerEntry]; an absent [systemValueType] is [None], an absent
    [directValue] is [JsUndefined]. *)
Record IUniformLedgerEntry : Type := {
  systemValueType : option Z;
  directValue : JsValue
}.

(** The object literal [{}]. *)
Definition empty_entry : IUniformLedgerEntry :=
  {| systemValueType := None; directValue := JsUndefined |}.

(** The object [{ [key: string]: IUniformLedgerEntry }]: its own properties in
    creation order, which is the order [for (const key in ...)] visits names
    that are not array indices (a uniform name is a shader identifier). *)
Definition Ledger : Type := list (string * IUniformLedgerEntry).

(** [ledger[key]] *)
Fixpoint ledger_get (l : Ledger) (key : string) : option IUniformLedgerEntry :=
  match l with
  | [] => None
  | (k, e) :: rest => if String.eqb k key then Some e else ledger_get rest key
  end.

(** [ledger[key] = entry]: an existing property keeps its place and takes the
    new value, a new property is created last. *)
Fixpoint ledger_set (l : Ledger) (key : string) (entry : IUniformLedgerEntry)
  : Ledger :=
  match l with
  | [] => [(key, entry)]
  | (k, e) :: rest =>
      if String.eqb k key then (k, entry) :: rest
      else (k, e) :: ledger_set rest key entry
  end.

(** An assignment to a field of the entry object stored under [key]. *)
Fixpoint ledger_update (l : Ledger) (key : string)
    (f : IUniformLedgerEntry -> IUniformLedgerEntry) : Ledger :=
  match l with
  | [] => []
  | (k, e) :: rest =>
      if String.eqb k key then (k, f e) :: rest
      else (k, e) :: ledger_update rest key f
  end.

Definition ledger_keys (l : Ledger) : list string := map fst l.

(** ** Scene, mesh, effect *)

Record Camera : Type := {
  minZ : float;
  maxZ : float
}.

(** The heap of [Matrix] objects: a location is an index, an allocation
    appends a cell. *)
Abbreviation loc := nat (only parsing).
Abbreviation Heap := (list Matrix) (only parsing).

(** A cell that was never allocated reads as the identity; the helper only
    reads cells it has allocated. *)
#[export] Instance Matrix_inhabited {ML : MatrixLib} : Inhabited Matrix :=
  populate Matrix_Identity.

Section Replay.

Context {ML : MatrixLib} {SV : NodeMaterialSystemValues}.

(** What the bind handler reads from the scene of the material. *)
Record Scene : Type := {
  getViewMatrix : Matrix;
  getProjectionMatrix : Matrix;
  getTransformMatrix : Matrix;
  fogColor : JsObject;
  deltaTime : float;
  activeCamera : option Camera;
  hasOriginBottomLeft : bool
}.

(** What it reads from the mesh being drawn. *)
Record AbstractMesh : Type := {
  getWorldMatrix : Matrix
}.

(** [Matrix.Identity()]: a new object. *)
Definition alloc_identity (h : Heap) : loc * Heap :=
  (length h, h ++ [Matrix_Identity]).

(** [a.multiplyToRef(b, result)]: overwrites the object [result]. *)
Definition multiplyToRef (a b : Matrix) (result : loc) (h : Heap) : Heap :=
  <[result := multiply a b]> h.

(** Where the matrix handed to [setMatrix] is stored: in an object the mesh or
    the scene owns, or in a heap cell of the helper. *)
Inductive MatrixStorage : Type :=
| SceneOwned
| Scratch (l : loc).

(** One call on the effect; [setMatrix] records the object it was given and
    the contents read from it during the call. *)
Inductive EffectCall : Type :=
| setMatrix (name : string) (storage : MatrixStorage) (contents : Matrix)
| setFloat (name : string) (x : float)
| setFloat4 (name : string) (x y z w : float)
| setColor3 (name : string) (color : JsObject)
| setColor4 (name : string) (color : JsObject) (alpha : JsValue)
| setVector3 (name : string) (vector : JsObject)
| setVector4 (name : string) (vector : JsObject)
| bindEyePosition (name : string) (isVector3 : bool).

(** The uniform name a call is made for. *)
Definition call_name (c : EffectCall) : string :=
  match c with
  | setMatrix n _ _ | setFloat n _ | setFloat4 n _ _ _ _ | setColor3 n _
  | setColor4 n _ _ | setVector3 n _ | setVector4 n _ | bindEyePosition n _ => n
  end.

(** ** The helper *)

Record ShaderMaterial : Type := {
  sm_name : string;
  sm_vertexSource : string;
  sm_fragmentSource : string;
  sm_uniforms : list string
}.

Record NodeMaterialRuntimeHelper : Type := {
  _shaderMaterial : option ShaderMaterial;
  _uniformLedger : Ledger;
  _cachedWorldViewMatrix : loc;
  _cachedWorldViewProjectionMatrix : loc;
  onShaderMaterialCreatedObservable : list nat
}.

(** The getter [ledger]. *)
Definition ledger (this : NodeMaterialRuntimeHelper) : Ledger :=
  _uniformLedger this.

(** *** The bind handler *)

(** What a bind has done so far: the heap and the calls made on the effect. *)
Record BindState : Type := {
  bs_heap : Heap;
  bs_calls : list EffectCall
}.

Definition push (c : EffectCall) (st : BindState) : BindState :=
  {| bs_heap := bs_heap st; bs_calls := bs_calls st ++ [c] |}.

Definition set_heap (h : Heap) (st : BindState) : BindState :=
  {| bs_heap := h; bs_calls := bs_calls st |}.

(** [effect.setMatrix(key, scratch)] for a scratch matrix of the helper. *)
Definition push_scratch (key : string) (l : loc) (st : BindState) : BindState :=
  push (setMatrix key (Scratch l) (bs_heap st !!! l)) st.

(** [switch (entry.systemValueType)]: the first [case] whose label is
    strictly equal to the value is taken; no label, no statement. *)
Definition bind_system_value (this : NodeMaterialRuntimeHelper)
    (mesh : AbstractMesh) (scene : Scene) (key : string) (k : Z)
    (st : BindState) : BindState :=
  if (k =? World)%Z then
    push (setMatrix key SceneOwned (getWorldMatrix mesh)) st
  else if (k =? WorldView)%Z then
    let l := _cachedWorldViewMatrix this in
    push_scratch key l
      (set_heap (multiplyToRef (getWorldMatrix mesh) (getViewMatrix scene) l
                   (bs_heap st)) st)
  else if (k =? WorldViewProjection)%Z then
    let l := _cachedWorldViewProjectionMatrix this in
    push_scratch key l
      (set_heap (multiplyToRef (getWorldMatrix mesh) (getTransformMatrix scene) l
                   (bs_heap st)) st)
  else if (k =? View)%Z then
    push (setMatrix key SceneOwned (getViewMatrix scene)) st
  else if (k =? Projection)%Z then
    push (setMatrix key SceneOwned (getProjectionMatrix scene)) st
  else if (k =? ViewProjection)%Z then
    push (setMatrix key SceneOwned (getTransformMatrix scene)) st
  else if (k =? CameraPosition)%Z then
    push (bindEyePosition key true) st
  else if (k =? FogColor)%Z then
    push (setColor3 key (fogColor scene)) st
  else if (k =? DeltaTime)%Z then
    push (setFloat key (deltaTime scene / 1000)%float) st
  else if (k =? CameraParameters)%Z then
    match activeCamera scene with
    | Some camera =>
        push (setFloat4 key
                (if hasOriginBottomLeft scene then (-1)%float else 1%float)
                (minZ camera) (maxZ camera) (1 / maxZ camera)%float) st
    | None => st
    end
  else st.

(** [switch (value.getClassName())] on an object that has the method. *)
Definition bind_class (key : string) (o : JsObject) (className : string)
    (st : BindState) : BindState :=
  if String.eqb className "Vector3" then push (setVector3 key o) st
  else if String.eqb className "Vector4" then push (setVector4 key o) st
  else if String.eqb className "Color3" then push (setColor3 key o) st
  else if String.eqb className "Color4" then push (setColor4 key o (prop_a o)) st
  else st.

(** The [else] branch: [value.getClassName()] is a call, and calling what is
    not a function raises a [TypeError]. *)
Definition bind_direct_value (key : string) (value : JsValue) (st : BindState)
  : JsError + BindState :=
  if truthy value then
    match value with
    | JsObj o =>
        match getClassName o with
        | Some className => inr (bind_class key o className st)
        | None => inl (TypeError "value.getClassName is not a function")
        end
    | _ => inl (TypeError "value.getClassName is not a function")
    end
  else inr st.

(** The body of the loop, for one property of the ledger: the test
    [if (entry.systemValueType)], then the [switch] on the same field. *)
Definition bind_entry (this : NodeMaterialRuntimeHelper) (mesh : AbstractMesh)
    (scene : Scene) (key : string) (entry : IUniformLedgerEntry)
    (st : BindState) : JsError + BindState :=
  if truthy_kind (systemValueType entry) then
    match systemValueType entry with
    | Some k => inr (bind_system_value this mesh scene key k st)
    | None => inr st
    end
  else bind_direct_value key (directValue entry) st.

(** How a bind ends: the heap and the calls at that point, the exception if
    one was raised, and the properties of the ledger the loop has reached. *)
Record BindResult : Type := {
  thrown : option JsError;
  final : BindState;
  visited : Ledger
}.

(** [for (const key in this._uniformLedger)]: an exception leaves the loop. *)
Fixpoint bind_loop (this : NodeMaterialRuntimeHelper) (mesh : AbstractMesh)
    (scene : Scene) (entries : Ledger) (st : BindState) (seen : Ledger)
  : BindResult :=
  match entries with
  | [] => {| thrown := None; final := st; visited := seen |}
  | (key, entry) :: rest =>
      match bind_entry this mesh scene key entry st with
      | inr st' => bind_loop this mesh scene rest st' (seen ++ [(key, entry)])
      | inl e =>
          {| thrown := Some e; final := st; visited := seen ++ [(key, entry)] |}
      end
  end.

(** The observer added to [onBindObservable]. [this._shaderMaterial!] is read
    when the handler runs: without a shader material, [getEffect] is read from
    [null]. The effect starts each bind with an empty record of calls. *)
Definition onBind (this : NodeMaterialRuntimeHelper) (mesh : AbstractMesh)
    (scene : Scene) (h : Heap) : BindResult :=
  let st := {| bs_heap := h; bs_calls := [] |} in
  match _shaderMaterial this with
  | None =>
      {| thrown := Some (TypeError "Cannot read properties of null");
         final := st; visited := [] |}
  | Some _ => bind_loop this mesh scene (_uniformLedger this) st []
  end.

(** *** Construction, build and disposal *)

(** An input block of the material, as the build handler reads it. *)
Record InputBlock : Type := {
  isUniform : bool;
  associatedVariableName : string;
  isSystemValue : bool;
  systemValue : option Z;
  value : JsValue
}.

Record CompilationStrings : Type := {
  vertex : string;
  fragment : string
}.

(** The material when its build signal fires. *)
Record NodeMaterial : Type := {
  compilationStrings : CompilationStrings;
  getInputBlocks : list InputBlock
}.

(** What the helper does to the objects around it. *)
Inductive Event : Type :=
| ShaderMaterialCreated (sm : ShaderMaterial)
| ShaderMaterialDisposed (sm : ShaderMaterial)
| ShaderMaterialNotified (observer : nat) (sm : ShaderMaterial).

(** The helper with what it shares with its surroundings: the heap, its
    one-shot registration on [material.onBuildObservable], and the events it
    has caused. *)
Record State : Type := {
  helper : NodeMaterialRuntimeHelper;
  heap : Heap;
  build_observer : bool;
  events : list Event
}.

(** The field initialisers and the constructor body. *)
Definition constructor (h : Heap) : State :=
  let (wv, h1) := alloc_identity h in
  let (wvp, h2) := alloc_identity h1 in
  {| helper := {| _shaderMaterial := None;
                  _uniformLedger := [];
                  _cachedWorldViewMatrix := wv;
                  _cachedWorldViewProjectionMatrix := wvp;
                  onShaderMaterialCreatedObservable := [] |};
     heap := h2;
     build_observer := true;
     events := [] |}.

Definition set_systemValueType (k : option Z) (e : IUniformLedgerEntry)
  : IUniformLedgerEntry :=
  {| systemValueType := k; directValue := directValue e |}.

Definition set_directValue (v : JsValue) (e : IUniformLedgerEntry)
  : IUniformLedgerEntry :=
  {| systemValueType := systemValueType e; directValue := v |}.

(** The body of the loop over the input blocks: [uniforms] and the ledger
    after one more block. The entry is stored first and filled afterwards,
    through the ledger. *)
Definition record_input_block (acc : list string * Ledger) (b : InputBlock)
  : list string * Ledger :=
  if isUniform b then
    let name := associatedVariableName b in
    let stored := ledger_set (snd acc) name empty_entry in
    (fst acc ++ [name],
     if isSystemValue b then
       ledger_update stored name (set_systemValueType (systemValue b))
     else if truthy (value b) then
       ledger_update stored name (set_directValue (value b))
     else stored)
  else acc.

Definition record_input_blocks (blocks : list InputBlock) (l : Ledger)
  : list string * Ledger :=
  fold_left record_input_block blocks ([], l).

(** The observer added once to [material.onBuildObservable]. The observers of
    [onShaderMaterialCreatedObservable] are notified in the order they were
    added. *)
Definition onBuild (material : NodeMaterial) (s : State) : State :=
  let this := helper s in
  let (uniforms, l) :=
    record_input_blocks (getInputBlocks material) (_uniformLedger this) in
  let sm := {| sm_name := "shaderMaterial";
               sm_vertexSource := vertex (compilationStrings material);
               sm_fragmentSource := fragment (compilationStrings material);
               sm_uniforms := uniforms |} in
  {| helper := {| _shaderMaterial := Some sm;
                  _uniformLedger := l;
                  _cachedWorldViewMatrix := _cachedWorldViewMatrix this;
                  _cachedWorldViewProjectionMatrix :=
                    _cachedWorldViewProjectionMatrix this;
                  onShaderMaterialCreatedObservable :=
                    onShaderMaterialCreatedObservable this |};
     heap := heap s;
     build_observer := build_observer s;
     events := events s ++ ShaderMaterialCreated sm
               :: map (fun o => ShaderMaterialNotified o sm)
                    (onShaderMaterialCreatedObservable this) |}.

(** Modelled from the spec: [Observable.addOnce] and the build signal of the
    material ([core/Misc/observable] and [../nodeMaterial] are not part of the
    sources): the signal runs the observers registered on it, and an observer
    added once is removed by its first run. Nothing in the helper removes it
    otherwise. *)
Definition notify_build (material : NodeMaterial) (s : State) : State :=
  if build_observer s then
    onBuild material
      {| helper := helper s; heap := heap s; build_observer := false;
         events := events s |}
  else s.

(** [dispose()] *)
Definition dispose (s : State) : State :=
  let this := helper s in
  {| helper := {| _shaderMaterial := None;
                  _uniformLedger := _uniformLedger this;
                  _cachedWorldViewMatrix := _cachedWorldViewMatrix this;
                  _cachedWorldViewProjectionMatrix :=
                    _cachedWorldViewProjectionMatrix this;
                  onShaderMaterialCreatedObservable := [] |};
     heap := heap s;
     build_observer := build_observer s;
     events := match _shaderMaterial this with
               | Some sm => events s ++ [ShaderMaterialDisposed sm]
               | None => events s
               end |}.

(** *** The helper in use *)

(** What can happen to a helper once constructed: the build signal, a
    disposal, a bind of its shader material, an assignment [ledger[key] =
    entry] by a caller, and a caller observing the creation of the shader
    material. *)
Inductive Action : Type :=
| Build (material : NodeMaterial)
| Dispose
| Bind (mesh : AbstractMesh) (scene : Scene)
| Assign (key : string) (entry : IUniformLedgerEntry)
| Observe (observer : nat).

(** The helper with other properties in its ledger object. *)
Definition with_ledger (l : Ledger) (this : NodeMaterialRuntimeHelper)
  : NodeMaterialRuntimeHelper :=
  {| _shaderMaterial := _shaderMaterial this;
     _uniformLedger := l;
     _cachedWorldViewMatrix := _cachedWorldViewMatrix this;
     _cachedWorldViewProjectionMatrix := _cachedWorldViewProjectionMatrix this;
     onShaderMaterialCreatedObservable :=
       onShaderMaterialCreatedObservable this |}.

Definition with_helper (this : NodeMaterialRuntimeHelper) (s : State) : State :=
  {| helper := this; heap := heap s; build_observer := build_observer s;
     events := events s |}.

Definition step (s : State) (a : Action) : State :=
  match a with
  | Build material => notify_build material s
  | Dispose => dispose s
  | Bind mesh scene =>
      {| helper := helper s;
         heap := bs_heap (final (onBind (helper s) mesh scene (heap s)));
         build_observer := build_observer s;
         events := events s |}
  | Assign key entry =>
      let this := helper s in
      with_helper
        (with_ledger (ledger_set (_uniformLedger this) key entry) this) s
  | Observe observer =>
      let this := helper s in
      with_helper
        {| _shaderMaterial := _shaderMaterial this;
           _uniformLedger := _uniformLedger this;
           _cachedWorldViewMatrix := _cachedWorldViewMatrix this;
           _cachedWorldViewProjectionMatrix :=
             _cachedWorldViewProjectionMatrix this;
           onShaderMaterialCreatedObservable :=
             onShaderMaterialCreatedObservable this ++ [observer] |} s
  end.

Definition run (s : State) (actions : list Action) : State :=
  fold_left step actions s.

End Replay.

(** A sequence of assignments to heap cells, first to last. *)
Fixpoint write_all {ML : MatrixLib} (writes : list (nat * Matrix))
    (h : list Matrix) : list Matrix :=
  match writes with
  | [] => h
  | (l, m) :: rest => write_all rest (<[l := m]> h)
  end.

(** What a bind state becomes by some assignments and some more calls. *)
Definition advance {ML : MatrixLib} (writes : list (nat * Matrix))
    (calls : list EffectCall) (st : BindState) : BindState :=
  {| bs_heap := write_all writes (bs_heap st);
     bs_calls := bs_calls st ++ calls |}.

(** ** Instances for the examples *)

(** One-by-one integer matrices. *)
Definition ScalarMatrices : MatrixLib :=
  {| Matrix := Z; Matrix_Identity := 1%Z; multiply := Z.mul |}.

Definition scalar (z : Z) : Matrix (MatrixLib := ScalarMatrices) := z.

(** The members numbered from 1. *)
Definition Numbered : NodeMaterialSystemValues :=
  {| World := 1; View := 2; Projection := 3; ViewProjection := 4;
     WorldView := 5; WorldViewProjection := 6; CameraPosition := 7;
     FogColor := 8; DeltaTime := 9; CameraParameters := 10 |}.

(** A mesh and two scenes over these matrices; the first scene has a camera
    with planes at 0.1 and 100 on an engine with its origin at the bottom
    left, the second has no active camera. *)
Definition sample_mesh : AbstractMesh (ML := ScalarMatrices) :=
  {| getWorldMatrix := scalar 5 |}.

Definition sample_scene : Scene (ML := ScalarMatrices) :=
  {| getViewMatrix := scalar 2; getProjectionMatrix := scalar 3;
     getTransformMatrix := scalar 6; fogColor := Color3 0.5 0.5 0.5;
     deltaTime := 16%float;
     activeCamera := Some {| minZ := 0.1%float; maxZ := 100%float |};
     hasOriginBottomLeft := true |}.

Definition sample_scene_no_camera : Scene (ML := ScalarMatrices) :=
  {| getViewMatrix := scalar 7; getProjectionMatrix := scalar 11;
     getTransformMatrix := scalar 77; fogColor := Color3 0 0 0;
     deltaTime := 16%float; activeCamera := None;
     hasOriginBottomLeft := false |}.

Definition uniform_block (name : string) (k : option Z) (v : JsValue)
  : InputBlock :=
  {| isUniform := true; associatedVariableName := name;
     isSystemValue := bool_decide (is_Some k); systemValue := k; value := v |}.

(** A material with a matrix, the camera parameters, a colour and a uniform
    without a value. *)
Definition sample_material : NodeMaterial :=
  {| compilationStrings := {| vertex := "vertex"; fragment := "fragment" |};
     getInputBlocks :=
       [ uniform_block "u_wvp" (Some 6%Z) JsUndefined;
         uniform_block "u_params" (Some 10%Z) JsUndefined;
         uniform_block "u_tint" None (JsObj (Color4 1 0 0 0.5));
         uniform_block "u_unused" None JsUndefined ] |}.

(** A material with a float uniform of value 2.5 and the world matrix. *)
Definition float_material : NodeMaterial :=
  {| compilationStrings := {| vertex := "vertex"; fragment := "fragment" |};
     getInputBlocks :=
       [ uniform_block "u_speed" None (JsNumber 2.5);
         uniform_block "u_World" (Some 1%Z) JsUndefined ] |}.

(** A material with the world-view matrix and the fog colour. *)
Definition world_view_material : NodeMaterial :=
  {| compilationStrings := {| vertex := "vertex"; fragment := "fragment" |};
     getInputBlocks :=
       [ uniform_block "u_wv" (Some 5%Z) JsUndefined;
         uniform_block "u_fog" (Some 8%Z) JsUndefined ] |}.

(** ** Auxiliary notions *)

(** An entry reflects an input block literally: the system value of a block
    that is one, the static value of a block that is not. *)
Definition carries_declaration (b : InputBlock) (e : IUniformLedgerEntry)
  : Prop :=
  if isSystemValue b then systemValueType e = systemValue b
  else directValue e = value b.

(** The entry the build handler leaves for a uniform input block. *)
Definition declared_entry (b : InputBlock) : IUniformLedgerEntry :=
  if isSystemValue b then
    {| systemValueType := systemValue b; directValue := JsUndefined |}
  else if truthy (value b) then
    {| systemValueType := None; directValue := value b |}
  else empty_entry.

(** An entry whose resolution cannot raise: the kind is truthy, or the direct
    value is falsy, or it is an object with a [getClassName] method. *)
Definition resolvable (e : IUniformLedgerEntry) : bool :=
  truthy_kind (systemValueType e)
  || negb (truthy (directValue e))
  || match directValue e with
     | JsObj o => bool_decide (is_Some (getClassName o))
     | _ => false
     end.

(** A state of a helper constructed on the heap [h0]: its scratch matrices
    are the two cells the constructor allocated, they are still allocated,
    and the names of the ledger are distinct. *)
Definition consistent {ML : MatrixLib} (h0 : Heap) (s : State) : Prop :=
  _cachedWorldViewMatrix (helper s) = length h0 /\
  _cachedWorldViewProjectionMatrix (helper s) = S (length h0) /\
  S (S (length h0)) <= length (heap s) /\
  NoDup (ledger_keys (_uniformLedger (helper s))).

(** The calls an entry makes when the body of the loop runs on it alone,
    with a heap [h] and an effect that has received no call yet. *)
Definition own_calls {ML : MatrixLib} {SV : NodeMaterialSystemValues}
    (this : NodeMaterialRuntimeHelper) (mesh : AbstractMesh) (scene : Scene)
    (h : Heap) (p : string * IUniformLedgerEntry) : list EffectCall :=
  match bind_entry this mesh scene p.1 p.2 {| bs_heap := h; bs_calls := [] |} with
  | inr st => bs_calls st
  | inl _ => []
  end.

(** The shader materials created, and those disposed, among some events. *)
Definition created (l : list Event) : list ShaderMaterial :=
  flat_map (fun e => match e with ShaderMaterialCreated sm => [sm] | _ => [] end) l.

Definition disposed (l : list Event) : list ShaderMaterial :=
  flat_map (fun e => match e with ShaderMaterialDisposed sm => [sm] | _ => [] end) l.

(** What the events of a helper and its fields say of each other. *)
Definition accounted {ML : MatrixLib} (s : State) : Prop :=
  (build_observer s = true -> created (events s) = []) /\
  length (created (events s)) <= 1 /\
  match _shaderMaterial (helper s) with
  | Some sm => created (events s) = [sm] /\ disposed (events s) = []
  | None => disposed (events s) = created (events s)
  end.

(** * FluidRendererSceneComponent: the fluid renderer of a scene

    A shallow embedding of
    [packages/dev/core/src/Rendering/fluidRenderer/fluidRendererSceneComponent.ts]:
    the property and the two methods it adds to [Scene.prototype], and the
    methods of the component that act on the fluid renderer.

    A [FluidRenderer] is an object of another file; it is known here by its
    identity, and what the scene and the component do to it (construct it,
    call its methods) is recorded in order. Its constructor and its methods
    are taken to return normally and not to assign [_fluidRenderer]. *)

Module Fluid.

(** The identity of a [FluidRenderer] object. *)
Abbreviation FluidRenderer := nat (only parsing).

Inductive Call : Type :=
| Constructed (r : FluidRenderer)
| Disposed (r : FluidRenderer)
| PrepareRendering (r : FluidRenderer)
| Render (r : FluidRenderer) (camera : nat).

(** The scene: the backing field, absent or [null] as [None]; the number of
    [FluidRenderer] objects constructed so far, which is the identity of the
    next one; and the calls made on fluid renderers. *)
Record Scene : Type := {
  _fluidRenderer : option FluidRenderer;
  constructed : nat;
  calls : list Call
}.

(** A scene on which nothing has happened yet. *)
Definition new_scene : Scene :=
  {| _fluidRenderer := None; constructed := 0; calls := [] |}.

(** The getter and the setter of the property [fluidRenderer]. *)
Definition fluidRenderer (s : Scene) : option FluidRenderer := _fluidRenderer s.

Definition set_fluidRenderer (value : option FluidRenderer) (s : Scene) : Scene :=
  {| _fluidRenderer := value; constructed := constructed s; calls := calls s |}.

(** [Scene.prototype.enableFluidRenderer]: the scene afterwards and the value
    returned. *)
Definition enableFluidRenderer (s : Scene) : Scene * option FluidRenderer :=
  match _fluidRenderer s with
  | Some r => (s, Some r)
  | None =>
      let r := constructed s in
      ({| _fluidRenderer := Some r; constructed := S (constructed s);
          calls := calls s ++ [Constructed r] |}, Some r)
  end.

(** [Scene.prototype.disableFluidRenderer] *)
Definition disableFluidRenderer (s : Scene) : Scene :=
  {| _fluidRenderer := None;
     constructed := constructed s;
     calls := match _fluidRenderer s with
              | Some r => calls s ++ [Disposed r]
              | None => calls s
              end |}.

(** The methods of [FluidRendererSceneComponent], on the scene the component
    belongs to. *)
Definition _gatherActiveCameraRenderTargets (s : Scene) : Scene :=
  match fluidRenderer s with
  | Some r =>
      {| _fluidRenderer := _fluidRenderer s; constructed := constructed s;
         calls := calls s ++ [PrepareRendering r] |}
  | None => s
  end.

Definition _afterCameraDraw (camera : nat) (s : Scene) : Scene :=
  match fluidRenderer s with
  | Some r =>
      {| _fluidRenderer := _fluidRenderer s; constructed := constructed s;
         calls := calls s ++ [Render r camera] |}
  | None => s
  end.

Definition rebuild (s : Scene) : Scene :=
  match _fluidRenderer s with
  | Some _ => fst (enableFluidRenderer (disableFluidRenderer s))
  | None => s
  end.

Definition dispose (s : Scene) : Scene := disableFluidRenderer s.

(** What the host does with a scene and its component. *)
Inductive Op : Type :=
| Enable
| Disable
| Gather
| AfterDraw (camera : nat)
| Rebuild
| DisposeComponent.

Definition step (s : Scene) (o : Op) : Scene :=
  match o with
  | Enable => fst (enableFluidRenderer s)
  | Disable => disableFluidRenderer s
  | Gather => _gatherActiveCameraRenderTargets s
  | AfterDraw camera => _afterCameraDraw camera s
  | Rebuild => rebuild s
  | DisposeComponent => dispose s
  end.

Definition run (s : Scene) (ops : list Op) : Scene := fold_left step ops s.

(** The discipline of a disposable object, checked along a record of calls:
    an object is constructed once, its methods are called and it is disposed
    only while it is alive. [alive] are the objects constructed and not
    disposed, [known] all the objects constructed. *)
Record Monitor : Type := {
  alive : list FluidRenderer;
  known : list FluidRenderer
}.

Definition observe (m : option Monitor) (c : Call) : option Monitor :=
  match m with
  | None => None
  | Some m =>
      match c with
      | Constructed r =>
          if decide (r ∈ known m) then None
          else Some {| alive := r :: alive m; known := r :: known m |}
      | Disposed r =>
          if decide (r ∈ alive m)
          then Some {| alive := filter (fun x => x <> r) (alive m);
                       known := known m |}
          else None
      | PrepareRendering r | Render r _ =>
          if decide (r ∈ alive m) then Some m else None
      end
  end.

Definition replay (l : list Call) : option Monitor :=
  fold_left observe l (Some {| alive := []; known := [] |}).

(** The objects a backing field refers to. *)
Definition held (s : Scene) : list FluidRenderer :=
  match _fluidRenderer s with
  | Some r => [r]
  | None => []
  end.

(** A scene whose record of calls obeys the discipline, with the fluid
    renderer it holds as the only one alive. *)
Definition disciplined (s : Scene) : Prop :=
  exists m, replay (calls s) = Some m /\
            alive m = held s /\
            (forall r, r ∈ known m -> r < constructed s) /\
            (forall r, r ∈ alive m -> r ∈ known m) /\
            (forall r, Constructed r ∈ calls s -> r ∈ known m).

End Fluid.

(** * Properties *)

(** ** The ledger as an object *)

Section LedgerFacts.

Implicit Types (l : Ledger) (key name : string) (e : IUniformLedgerEntry).

Lemma ledger_get_set l key e name :
  ledger_get (ledger_set l key e) name =
  if String.eqb key name then Some e else ledger_get l name.
Proof.
  induction l as [|[k e0] rest IH]; simpl.
  - destruct (String.eqb_spec key name); reflexivity.
  - destruct (String.eqb_spec k key) as [->|Hk]; simpl.
    + destruct (String.eqb_spec key name); reflexivity.
    + rewrite IH. destruct (String.eqb_spec k name) as [->|]; [|reflexivity].
      destruct (String.eqb_spec key name); congruence.
Qed.

Lemma ledger_get_update l key f name :
  ledger_get (ledger_update l key f) name =
  if String.eqb key name then f <$> ledger_get l name else ledger_get l name.
Proof.
  induction l as [|[k e0] rest IH]; simpl.
  - destruct (String.eqb key name); reflexivity.
  - destruct (String.eqb_spec k key) as [->|Hk]; simpl.
    + destruct (String.eqb_spec key name); reflexivity.
    + rewrite IH. destruct (String.eqb_spec k name) as [->|]; [|reflexivity].
      destruct (String.eqb_spec key name); congruence.
Qed.

Lemma ledger_keys_update l key f :
  ledger_keys (ledger_update l key f) = ledger_keys l.
Proof.
  induction l as [|[k e0] rest IH]; simpl; [reflexivity|].
  destruct (String.eqb k key); simpl; [reflexivity|].
  f_equal. exact IH.
Qed.

(** An assignment creates a property only when the name is new. *)
Lemma ledger_keys_set l key e :
  ledger_keys (ledger_set l key e) =
  if decide (key ∈ ledger_keys l) then ledger_keys l else ledger_keys l ++ [key].
Proof.
  induction l as [|[k e0] rest IH]; cbn [ledger_set ledger_keys map fst].
  - destruct (decide (key ∈ [])) as [Hin|_]; [|reflexivity].
    by apply elem_of_nil in Hin.
  - fold (ledger_keys rest) in *.
    destruct (String.eqb_spec k key) as [->|Hk];
      cbn [ledger_keys map fst]; fold (ledger_keys rest);
      fold (ledger_keys (ledger_set rest key e)).
    + destruct (decide (key ∈ key :: ledger_keys rest)) as [_|Hn];
        [reflexivity | exfalso; apply Hn; left].
    + rewrite IH.
      destruct (decide (key ∈ ledger_keys rest)) as [Hin|Hin];
        destruct (decide (key ∈ k :: ledger_keys rest)) as [Hin'|Hin'];
        try reflexivity.
      * exfalso. apply Hin'. by right.
      * apply elem_of_cons in Hin' as [?|?]; congruence.
Qed.

Lemma elem_of_ledger_keys_set l key e name :
  name ∈ ledger_keys (ledger_set l key e) <-> name = key \/ name ∈ ledger_keys l.
Proof.
  rewrite ledger_keys_set. case_decide.
  - split; [by right | intros [->|?]; done].
  - rewrite elem_of_app, list_elem_of_singleton. tauto.
Qed.

(** The names of an object are distinct, and assignments keep them so. *)
Lemma NoDup_ledger_keys_set l key e :
  NoDup (ledger_keys l) -> NoDup (ledger_keys (ledger_set l key e)).
Proof.
  intros Hnd. rewrite ledger_keys_set. case_decide; [exact Hnd|].
  apply NoDup_app. split; [exact Hnd|]. split.
  - intros x Hx ->%list_elem_of_singleton. contradiction.
  - apply NoDup_singleton.
Qed.

Lemma ledger_get_None l name :
  ledger_get l name = None <-> name ∉ ledger_keys l.
Proof.
  induction l as [|[k e0] rest IH]; simpl.
  - split; [intros _; apply not_elem_of_nil | reflexivity].
  - rewrite not_elem_of_cons.
    destruct (String.eqb_spec k name) as [->|Hk].
    + split; [discriminate | intros [? _]; congruence].
    + rewrite IH. split; [intros ?; split; congruence | tauto].
Qed.

Lemma ledger_get_elem_of l name e :
  ledger_get l name = Some e -> (name, e) ∈ l.
Proof.
  induction l as [|[k e0] rest IH]; simpl; [discriminate|].
  destruct (String.eqb_spec k name) as [->|Hk].
  - intros [= ->]. left.
  - intros H. right. auto.
Qed.

Lemma elem_of_ledger_get l name e :
  NoDup (ledger_keys l) -> (name, e) ∈ l -> ledger_get l name = Some e.
Proof.
  induction l as [|[k e0] rest IH]; simpl.
  - intros _ H. by apply elem_of_nil in H.
  - intros [Hk Hnd]%NoDup_cons [Heq|Hin]%elem_of_cons.
    + injection Heq as -> ->. by rewrite String.eqb_refl.
    + destruct (String.eqb_spec k name) as [->|Hne]; [|auto].
      exfalso. apply Hk. change name with (fst (name, e)).
      apply list_elem_of_fmap_2. exact Hin.
Qed.

End LedgerFacts.

(** ** Building the ledger *)

Section Build.

Context {ML : MatrixLib}.

Implicit Types (b : InputBlock) (acc : list string * Ledger) (name : string).

Lemma record_input_block_get acc b name :
  ledger_get (snd (record_input_block acc b)) name =
  if isUniform b && String.eqb (associatedVariableName b) name
  then Some (declared_entry b) else ledger_get (snd acc) name.
Proof.
  unfold record_input_block, declared_entry.
  destruct (isUniform b); [|reflexivity]. cbn [andb snd].
  destruct (isSystemValue b); [|destruct (truthy (value b))];
    rewrite ?ledger_get_update, ledger_get_set;
    destruct (String.eqb (associatedVariableName b) name); reflexivity.
Qed.

Lemma record_input_block_keys acc b :
  ledger_keys (snd (record_input_block acc b)) =
  if isUniform b
  then ledger_keys (ledger_set (snd acc) (associatedVariableName b) empty_entry)
  else ledger_keys (snd acc).
Proof.
  unfold record_input_block.
  destruct (isUniform b); [|reflexivity]. cbn [snd].
  destruct (isSystemValue b); [|destruct (truthy (value b))];
    rewrite ?ledger_keys_update; reflexivity.
Qed.

Lemma record_input_blocks_NoDup (blocks : list InputBlock) acc :
  NoDup (ledger_keys (snd acc)) ->
  NoDup (ledger_keys (snd (fold_left record_input_block blocks acc))).
Proof.
  revert acc. induction blocks as [|b blocks IH]; intros acc Hnd; [exact Hnd|].
  cbn [fold_left]. apply IH. rewrite record_input_block_keys.
  destruct (isUniform b); [by apply NoDup_ledger_keys_set | exact Hnd].
Qed.

Lemma record_input_blocks_keys (blocks : list InputBlock) acc name :
  name ∈ ledger_keys (snd (fold_left record_input_block blocks acc)) <->
  name ∈ ledger_keys (snd acc) \/
  exists b, b ∈ blocks /\ isUniform b = true /\ associatedVariableName b = name.
Proof.
  revert acc. induction blocks as [|b blocks IH]; intros acc; cbn [fold_left].
  - split; [by left | intros [?|(b & Hb & _)]; [done|]].
    by apply elem_of_nil in Hb.
  - rewrite IH, record_input_block_keys. split.
    + intros [Hin|(b' & Hb' & Hu & Hn)].
      * destruct (isUniform b) eqn:Hu; [|by left].
        apply elem_of_ledger_keys_set in Hin as [->|?]; [|by left].
        right. exists b. split; [left | done].
      * right. exists b'. split; [by right | done].
    + intros [Hin|(b' & [->|Hb']%elem_of_cons & Hu & Hn)].
      * left. destruct (isUniform b); [|done].
        apply elem_of_ledger_keys_set. by right.
      * left. rewrite Hu. apply elem_of_ledger_keys_set. by left.
      * right. by exists b'.
Qed.

(** Blocks that are not uniforms of that name leave its entry alone. *)
Lemma record_input_blocks_get_other (blocks : list InputBlock) acc name :
  (forall b, b ∈ blocks -> isUniform b = true ->
             associatedVariableName b <> name) ->
  ledger_get (snd (fold_left record_input_block blocks acc)) name =
  ledger_get (snd acc) name.
Proof.
  revert acc. induction blocks as [|b blocks IH]; intros acc Hother;
    cbn [fold_left]; [reflexivity|].
  rewrite IH by (intros b' ?; apply Hother; by right).
  rewrite record_input_block_get. destruct (isUniform b) eqn:Hu; [|reflexivity].
  cbn [andb]. destruct (String.eqb_spec (associatedVariableName b) name) as [Heq|];
    [|reflexivity].
  exfalso. by apply (Hother b); [left | |].
Qed.

(** The last uniform block of a name decides its entry. *)
Lemma record_input_blocks_get_last (pre post : list InputBlock) b acc :
  isUniform b = true ->
  (forall b', b' ∈ post -> isUniform b' = true ->
              associatedVariableName b' <> associatedVariableName b) ->
  ledger_get (snd (fold_left record_input_block (pre ++ b :: post) acc))
    (associatedVariableName b) = Some (declared_entry b).
Proof.
  intros Hu Hpost. rewrite fold_left_app. cbn [fold_left].
  rewrite record_input_blocks_get_other by exact Hpost.
  rewrite record_input_block_get, Hu, String.eqb_refl. reflexivity.
Qed.

(** [uniforms] receives the names of the uniform blocks, in order. *)
Lemma record_input_blocks_uniforms (blocks : list InputBlock) acc :
  fst (fold_left record_input_block blocks acc) =
  fst acc ++ map associatedVariableName (filter (fun b => isUniform b = true) blocks).
Proof.
  revert acc. induction blocks as [|b blocks IH]; intros acc; cbn [fold_left].
  - cbn. by rewrite app_nil_r.
  - rewrite IH. unfold record_input_block.
    destruct (isUniform b) eqn:Hu.
    + rewrite filter_cons_True by exact Hu. cbn [fst map]. by rewrite <- app_assoc.
    + rewrite filter_cons_False by congruence. reflexivity.
Qed.

Lemma onBuild_ledger (material : NodeMaterial) (s : State) :
  ledger (helper (onBuild material s)) =
  snd (record_input_blocks (getInputBlocks material) (_uniformLedger (helper s))).
Proof.
  unfold onBuild.
  destruct (record_input_blocks _ _) as [uniforms l]. reflexivity.
Qed.

Lemma onBuild_shaderMaterial (material : NodeMaterial) (s : State) :
  _shaderMaterial (helper (onBuild material s)) =
  Some {| sm_name := "shaderMaterial";
          sm_vertexSource := vertex (compilationStrings material);
          sm_fragmentSource := fragment (compilationStrings material);
          sm_uniforms :=
            fst (record_input_blocks (getInputBlocks material)
                   (_uniformLedger (helper s))) |}.
Proof.
  unfold onBuild.
  destruct (record_input_blocks _ _) as [uniforms l]. reflexivity.
Qed.

(** C2, as amended: when the build signal reaches a helper whose ledger is
    still empty, the ledger afterwards has one property per name of a uniform
    input block and no other; the entry of a name is decided by the last
    uniform block of that name: it holds the system value of a block that is a
    system value, the static value of a block that is not when that value is
    truthy, and nothing when that value is falsy (absent, [null], [0], [NaN],
    the empty string, [false]). *)
Theorem build_ledger_complete (material : NodeMaterial) (s : State) :
  _uniformLedger (helper s) = [] ->
  build_observer s = true ->
  let l := ledger (helper (notify_build material s)) in
  NoDup (ledger_keys l) /\
  (forall name,
     name ∈ ledger_keys l <->
     exists b, b ∈ getInputBlocks material /\ isUniform b = true /\
               associatedVariableName b = name) /\
  (forall pre b post,
     getInputBlocks material = pre ++ b :: post ->
     isUniform b = true ->
     (forall b', b' ∈ post -> isUniform b' = true ->
                 associatedVariableName b' <> associatedVariableName b) ->
     ledger_get l (associatedVariableName b) =
     Some (if isSystemValue b then
             {| systemValueType := systemValue b; directValue := JsUndefined |}
           else if truthy (value b) then
             {| systemValueType := None; directValue := value b |}
           else empty_entry)).
Proof.
  intros Hempty Hobs l. subst l. unfold notify_build. rewrite Hobs.
  rewrite onBuild_ledger. cbn [helper]. rewrite Hempty.
  unfold record_input_blocks. split; [|split].
  - apply record_input_blocks_NoDup. apply NoDup_nil_2.
  - intros name. rewrite record_input_blocks_keys. cbn [snd ledger_keys map].
    split; [intros [Hin|H]; [by apply elem_of_nil in Hin | exact H] | by right].
  - intros pre b post -> Hu Hpost.
    exact (record_input_blocks_get_last pre post b _ Hu Hpost).
Qed.

End Build.

(** The statement of [build_ledger_complete] at a material with a system
    value, a colour, a zero and a block that is not a uniform. *)
Lemma build_ledger_complete_witness :
  let material :=
    {| compilationStrings := {| vertex := "v"; fragment := "f" |};
       getInputBlocks :=
         [ {| isUniform := true; associatedVariableName := "u_World";
              isSystemValue := true; systemValue := Some 1%Z;
              value := JsUndefined |};
           {| isUniform := true; associatedVariableName := "u_tint";
              isSystemValue := false; systemValue := None;
              value := JsObj (Color4 1 0 0 0.5) |};
           {| isUniform := false; associatedVariableName := "position";
              isSystemValue := false; systemValue := None;
              value := JsUndefined |};
           {| isUniform := true; associatedVariableName := "u_speed";
              isSystemValue := false; systemValue := None;
              value := JsNumber 0 |} ] |} in
  let l := ledger (helper (notify_build material
                             (constructor (ML := ScalarMatrices) []))) in
  NoDup (ledger_keys l) /\
  (forall name,
     name ∈ ledger_keys l <->
     exists b, b ∈ getInputBlocks material /\ isUniform b = true /\
               associatedVariableName b = name) /\
  (forall pre b post,
     getInputBlocks material = pre ++ b :: post ->
     isUniform b = true ->
     (forall b', b' ∈ post -> isUniform b' = true ->
                 associatedVariableName b' <> associatedVariableName b) ->
     ledger_get l (associatedVariableName b) =
     Some (if isSystemValue b then
             {| systemValueType := systemValue b; directValue := JsUndefined |}
           else if truthy (value b) then
             {| systemValueType := None; directValue := value b |}
           else empty_entry)).
Proof.
  intros material.
  apply (build_ledger_complete (ML := ScalarMatrices) material
           (constructor (ML := ScalarMatrices) [])); reflexivity.
Defined.

(** C2, as stated, fails: a uniform input block whose static value is the
    number [0] leaves an entry without a direct value. *)
Lemma build_ledger_drops_falsy_value :
  let b := {| isUniform := true; associatedVariableName := "u_speed";
              isSystemValue := false; systemValue := None;
              value := JsNumber 0 |} in
  let material :=
    {| compilationStrings := {| vertex := "v"; fragment := "f" |};
       getInputBlocks := [b] |} in
  let l := ledger (helper (notify_build material
                             (constructor (ML := ScalarMatrices) []))) in
  ledger_get l "u_speed" = Some empty_entry /\
  ~ (forall e, ledger_get l (associatedVariableName b) = Some e ->
               carries_declaration b e).
Proof.
  split; [reflexivity|].
  intros H. specialize (H empty_entry eq_refl). discriminate H.
Qed.

(** ** The enumeration *)

Section Enumeration.

Context {SV : NodeMaterialSystemValues}.

Lemma enum_ok_distinct (i j : nat) (a b : Z) :
  enum_ok -> members !! i = Some a -> members !! j = Some b -> i <> j ->
  (a =? b)%Z = false.
Proof.
  intros [Hnd _] Hi Hj Hij. apply Z.eqb_neq. intros ->.
  apply Hij. exact (NoDup_lookup _ _ _ _ Hnd Hi Hj).
Qed.

Lemma enum_ok_nonzero (k : Z) : enum_ok -> k ∈ members -> k <> 0%Z.
Proof. intros [_ H0] Hk ->. contradiction. Qed.

Lemma enum_ok_truthy (i : nat) (k : Z) :
  enum_ok -> members !! i = Some k -> truthy_kind (Some k) = true.
Proof.
  intros Hok Hi. cbn. apply negb_true_iff, Z.eqb_neq.
  apply enum_ok_nonzero; [exact Hok|]. by apply list_elem_of_lookup_2 in Hi.
Qed.

End Enumeration.

(** ** One entry of the ledger *)

Section Entry.

Context {ML : MatrixLib} {SV : NodeMaterialSystemValues}.

Implicit Types (this : NodeMaterialRuntimeHelper) (mesh : AbstractMesh)
  (scene : Scene) (key : string) (entry : IUniformLedgerEntry) (st : BindState).

(** The test [if (entry.systemValueType)] picks the branch. *)
Lemma bind_entry_system this mesh scene key entry st k :
  systemValueType entry = Some k -> k <> 0%Z ->
  bind_entry this mesh scene key entry st =
  inr (bind_system_value this mesh scene key k st).
Proof.
  intros Hk Hnz. unfold bind_entry. rewrite Hk. cbn.
  apply Z.eqb_neq in Hnz. rewrite Hnz. reflexivity.
Qed.

Lemma bind_entry_direct this mesh scene key entry st :
  truthy_kind (systemValueType entry) = false ->
  bind_entry this mesh scene key entry st =
  bind_direct_value key (directValue entry) st.
Proof. intros H. unfold bind_entry. rewrite H. reflexivity. Qed.

(** C3: an entry whose kind is [CameraParameters] makes the one call
    [setFloat4(key, s, minZ, maxZ, 1 / maxZ)] when the scene has an active
    camera, with [s] being [-1] if the engine has its origin at the bottom
    left and [1] otherwise, and [minZ], [maxZ] the planes of that camera;
    without an active camera it makes no call. Neither case touches the heap
    or raises. *)
Theorem camera_parameters_pushed this mesh scene key entry st :
  enum_ok ->
  systemValueType entry = Some CameraParameters ->
  (forall camera, activeCamera scene = Some camera ->
     bind_entry this mesh scene key entry st =
     inr {| bs_heap := bs_heap st;
            bs_calls := bs_calls st ++
              [setFloat4 key
                 (if hasOriginBottomLeft scene then (-1)%float else 1%float)
                 (minZ camera) (maxZ camera) (1 / maxZ camera)%float] |}) /\
  (activeCamera scene = None ->
     bind_entry this mesh scene key entry st = inr st).
Proof.
  intros Hok Hkind.
  assert (Hlast : forall i k, (i < 9)%nat -> members !! i = Some k ->
                              (CameraParameters =? k)%Z = false).
  { intros i k Hi Hk.
    apply (enum_ok_distinct 9 i _ _ Hok eq_refl Hk). lia. }
  assert (Hentry : bind_entry this mesh scene key entry st =
                   inr match activeCamera scene with
                       | Some camera =>
                           push (setFloat4 key
                                   (if hasOriginBottomLeft scene
                                    then (-1)%float else 1%float)
                                   (minZ camera) (maxZ camera)
                                   (1 / maxZ camera)%float) st
                       | None => st
                       end).
  { rewrite (bind_entry_system _ _ _ _ _ _ _ Hkind)
      by (apply enum_ok_nonzero; [exact Hok | by repeat constructor]).
    unfold bind_system_value.
    rewrite (Hlast 0%nat World), (Hlast 1%nat WorldView),
      (Hlast 2%nat WorldViewProjection), (Hlast 3%nat View),
      (Hlast 4%nat Projection), (Hlast 5%nat ViewProjection),
      (Hlast 6%nat CameraPosition), (Hlast 7%nat FogColor),
      (Hlast 8%nat DeltaTime) by (lia || reflexivity).
    rewrite Z.eqb_refl. reflexivity. }
  rewrite Hentry. split.
  - intros camera ->. reflexivity.
  - intros ->. reflexivity.
Qed.

End Entry.

(** ** Heap cells *)

Section HeapFacts.

Context {ML : MatrixLib}.

Implicit Types (h : Heap) (l : loc) (m : Matrix) (writes : list (nat * Matrix)).

Lemma write_all_length writes h : length (write_all writes h) = length h.
Proof.
  revert h. induction writes as [|[l m] rest IH]; intros h; cbn [write_all];
    [reflexivity|].
  by rewrite IH, length_insert.
Qed.

Lemma write_all_app (w1 w2 : list (nat * Matrix)) h :
  write_all (w1 ++ w2) h = write_all w2 (write_all w1 h).
Proof.
  revert h. induction w1 as [|[l m] rest IH]; intros h; cbn; [reflexivity|].
  apply IH.
Qed.

(** A later assignment to a cell hides an earlier one. *)
Lemma write_all_shadow writes h l m m' :
  <[l := m]> (write_all writes (<[l := m']> h)) = <[l := m]> (write_all writes h).
Proof.
  revert h. induction writes as [|[l1 m1] rest IH]; intros h; cbn [write_all].
  - apply list_insert_insert_eq.
  - destruct (decide (l1 = l)) as [->|Hne].
    + by rewrite list_insert_insert_eq.
    + rewrite list_insert_insert_ne by exact Hne. apply IH.
Qed.

(** Running the same assignments again changes nothing. *)
Lemma write_all_twice writes h :
  write_all writes (write_all writes h) = write_all writes h.
Proof.
  revert h. induction writes as [|[l m] rest IH] using rev_ind; intros h;
    [reflexivity|].
  rewrite !write_all_app. cbn [write_all].
  rewrite write_all_shadow, IH. reflexivity.
Qed.

(** Reading a cell right after writing it depends on the heap only through
    its size. *)
Lemma read_after_write h l m :
  <[l := m]> h !!! l = if decide (l < length h) then m else Matrix_Identity.
Proof.
  case_decide as Hl.
  - by apply list_lookup_total_insert_eq.
  - rewrite list_insert_ge by lia. rewrite list_lookup_total_alt.
    rewrite lookup_ge_None_2 by lia. reflexivity.
Qed.

End HeapFacts.

(** ** The loop over the ledger *)

Section Loop.

Context {ML : MatrixLib} {SV : NodeMaterialSystemValues}.

Implicit Types (this : NodeMaterialRuntimeHelper) (mesh : AbstractMesh)
  (scene : Scene) (key : string) (entry : IUniformLedgerEntry) (st : BindState)
  (entries seen : Ledger).

Lemma advance_nil st : advance [] [] st = st.
Proof. destruct st. unfold advance. cbn. by rewrite app_nil_r. Qed.

Lemma advance_advance w1 c1 w2 c2 st :
  advance w2 c2 (advance w1 c1 st) = advance (w1 ++ w2) (c1 ++ c2) st.
Proof. unfold advance. cbn. by rewrite write_all_app, app_assoc. Qed.

(** The [switch] on the kind: at most one assignment to a scratch matrix, and
    calls for [key] only, which depend on the heap through its size. *)
Lemma bind_system_value_summary this mesh scene key k :
  exists writes (calls : nat -> list EffectCall),
    (forall n, Forall (fun c => call_name c = key) (calls n)) /\
    forall st,
      bind_system_value this mesh scene key k st =
      advance writes (calls (length (bs_heap st))) st.
Proof.
  unfold bind_system_value, push_scratch, set_heap, multiplyToRef, push.
  repeat case_match;
    try (exists [], (fun _ => []); split;
         [intros n; constructor | intros st; by rewrite advance_nil]);
    try (eexists [], (fun _ => [_]);
         split; [|intros st; reflexivity]; intros n; by repeat constructor).
  - eexists [(_, _)],
      (fun n => [setMatrix key (Scratch (_cachedWorldViewMatrix this))
                   (if decide (_cachedWorldViewMatrix this < n) then _
                    else Matrix_Identity)]).
    split; [intros n; by repeat constructor|].
    intros st. unfold advance. cbn. by rewrite read_after_write.
  - eexists [(_, _)],
      (fun n => [setMatrix key (Scratch (_cachedWorldViewProjectionMatrix this))
                   (if decide (_cachedWorldViewProjectionMatrix this < n) then _
                    else Matrix_Identity)]).
    split; [intros n; by repeat constructor|].
    intros st. unfold advance. cbn. by rewrite read_after_write.
Qed.

(** The [else] branch: no assignment; whether it raises does not depend on
    what the bind has done so far. *)
Lemma bind_direct_value_summary key (v : JsValue) :
  (exists e, forall st, bind_direct_value key v st = inl e) \/
  (exists calls,
     Forall (fun c => call_name c = key) calls /\
     (truthy v = false -> calls = []) /\
     forall st, bind_direct_value key v st = inr (advance [] calls st)).
Proof.
  unfold bind_direct_value.
  destruct (truthy v) eqn:Hv.
  - destruct v as [| | | | |o]; try (left; eexists; reflexivity).
    destruct (getClassName o) as [className|]; [|left; eexists; reflexivity].
    right. unfold bind_class, push.
    repeat case_match;
      try (eexists [_]; split; [|split; [discriminate | intros st; reflexivity]];
           by repeat constructor).
    exists []. split; [constructor|]. split; [done|].
    intros st. by rewrite advance_nil.
  - right. exists []. split; [constructor|]. split; [done|].
    intros st. by rewrite advance_nil.
Qed.

Lemma bind_entry_summary this mesh scene key entry :
  (exists e, forall st, bind_entry this mesh scene key entry st = inl e) \/
  (exists writes (calls : nat -> list EffectCall),
     (forall n, Forall (fun c => call_name c = key) (calls n)) /\
     (entry = empty_entry -> forall n, calls n = []) /\
     forall st,
       bind_entry this mesh scene key entry st =
       inr (advance writes (calls (length (bs_heap st))) st)).
Proof.
  unfold bind_entry.
  destruct (truthy_kind (systemValueType entry)) eqn:Hkind.
  - right. destruct (systemValueType entry) as [k|] eqn:Hk; [|discriminate].
    destruct (bind_system_value_summary this mesh scene key k)
      as (writes & calls & Hnamed & Hrun).
    exists writes, calls. split; [exact Hnamed|]. split.
    + intros ->. discriminate.
    + intros st. by rewrite Hrun.
  - destruct (bind_direct_value_summary key (directValue entry))
      as [[e He]|(calls & Hnamed & Hfalsy & Hrun)].
    + left. by exists e.
    + right. exists [], (fun _ => calls). split; [done|]. split.
      * intros -> n. by apply Hfalsy.
      * exact Hrun.
Qed.

(** The whole loop: what it raises, assigns, calls and reaches is decided by
    the ledger, the mesh and the scene, and by the size of the heap. *)
Lemma bind_loop_summary this mesh scene entries :
  exists (err : option JsError) writes (calls : nat -> list EffectCall)
         (reached : Ledger),
    (forall n c, c ∈ calls n ->
       exists entry, (call_name c, entry) ∈ reached /\ entry <> empty_entry) /\
    reached `prefix_of` entries /\
    (err = None -> reached = entries) /\
    (forall e, err = Some e ->
       exists key entry, last reached = Some (key, entry) /\
                         resolvable entry = false) /\
    forall st seen,
      bind_loop this mesh scene entries st seen =
      {| thrown := err;
         final := advance writes (calls (length (bs_heap st))) st;
         visited := seen ++ reached |}.
Proof.
  induction entries as [|[key entry] rest IH].
  - exists None, [], (fun _ => []), []. repeat split; try done.
    + intros n c Hc. by apply elem_of_nil in Hc.
    + intros st seen. cbn. by rewrite advance_nil, app_nil_r.
  - destruct (bind_entry_summary this mesh scene key entry)
      as [[e He]|(w & c & Hnamed & Hinert & Hrun)].
    + exists (Some e), [], (fun _ => []), [(key, entry)]. repeat split; try done.
      * intros n c Hc. by apply elem_of_nil in Hc.
      * by exists rest.
      * intros e' _. exists key, entry. split; [reflexivity|].
        specialize (He {| bs_heap := []; bs_calls := [] |}).
        unfold bind_entry, bind_direct_value, resolvable in *.
        destruct (truthy_kind (systemValueType entry));
          [destruct (systemValueType entry); discriminate|].
        destruct (truthy (directValue entry)); [|discriminate].
        destruct (directValue entry) as [| | | | |o]; try reflexivity.
        destruct (getClassName o); [discriminate | reflexivity].
      * intros st seen. cbn [bind_loop]. by rewrite He, advance_nil.
    + destruct IH as (err & w' & c' & reached & Hcalls & Hprefix & Hall & Hlast
                      & Hloop).
      exists err, (w ++ w'), (fun n => c n ++ c' n), ((key, entry) :: reached).
      repeat split.
      * intros n x [Hx|Hx]%elem_of_app.
        -- exists entry. split.
           ++ pose proof (Hnamed n) as Hn. rewrite Forall_forall in Hn.
              rewrite (Hn x Hx). left.
           ++ intros ->. rewrite (Hinert eq_refl n) in Hx.
              by apply elem_of_nil in Hx.
        -- destruct (Hcalls n x Hx) as (entry' & Hin & Hne).
           exists entry'. split; [by right | exact Hne].
      * by apply prefix_cons.
      * intros ->. by rewrite (Hall eq_refl).
      * intros e Herr. destruct (Hlast e Herr) as (key' & entry' & Hl & Hbad).
        exists key', entry'. split; [|exact Hbad].
        destruct reached; [discriminate|]. exact Hl.
      * intros st seen. cbn [bind_loop]. rewrite Hrun, Hloop.
        rewrite advance_advance. cbn [advance bs_heap].
        rewrite write_all_length, <- app_assoc. reflexivity.
Qed.

Lemma onBind_heap_length this mesh scene (h : Heap) :
  length (bs_heap (final (onBind this mesh scene h))) = length h.
Proof.
  unfold onBind. destruct (_shaderMaterial this); [|reflexivity].
  destruct (bind_loop_summary this mesh scene (_uniformLedger this))
    as (err & w & c & reached & _ & _ & _ & _ & Hloop).
  rewrite Hloop. cbn. apply write_all_length.
Qed.

(** A bind of a helper that has its shader material reaches every entry and
    raises nothing when every entry is resolvable, whatever the kinds and the
    class names. *)
Lemma onBind_resolvable this mesh scene (h : Heap) :
  _shaderMaterial this <> None ->
  (forall key entry, (key, entry) ∈ ledger this -> resolvable entry = true) ->
  thrown (onBind this mesh scene h) = None /\
  visited (onBind this mesh scene h) = ledger this.
Proof.
  intros Hsm Hres. unfold onBind, ledger in *.
  destruct (_shaderMaterial this); [|done].
  destruct (bind_loop_summary this mesh scene (_uniformLedger this))
    as (err & w & c & reached & _ & Hprefix & Hall & Hlast & Hloop).
  rewrite Hloop. cbn.
  destruct err as [e|]; [|by rewrite (Hall eq_refl)].
  exfalso. destruct (Hlast e eq_refl) as (key & entry & Hl & Hbad).
  rewrite (Hres key entry) in Hbad; [discriminate|].
  apply (elem_of_prefix reached); [|exact Hprefix].
  by apply last_Some_elem_of.
Qed.

(** C8: a second bind with the same mesh and scene, right after a first,
    ends exactly as the first did: the same exception or none, the same calls
    with the same arguments in the same order, the same entries reached, and
    the heap as the first bind left it. *)
Theorem onBind_twice this mesh scene (h : Heap) :
  onBind this mesh scene (bs_heap (final (onBind this mesh scene h))) =
  onBind this mesh scene h.
Proof.
  unfold onBind. destruct (_shaderMaterial this); [|reflexivity].
  destruct (bind_loop_summary this mesh scene (_uniformLedger this))
    as (err & w & c & reached & _ & _ & _ & _ & Hloop).
  rewrite !Hloop. unfold advance. cbn.
  by rewrite write_all_twice, write_all_length.
Qed.

(** The scratch matrices are all the loop reads from the helper. *)
Lemma bind_loop_with_ledger (l : Ledger) this mesh scene entries st seen :
  bind_loop (with_ledger l this) mesh scene entries st seen =
  bind_loop this mesh scene entries st seen.
Proof.
  revert st seen. induction entries as [|[key entry] rest IH]; intros st seen;
    cbn [bind_loop]; [reflexivity|].
  change (bind_entry (with_ledger l this) mesh scene key entry st)
    with (bind_entry this mesh scene key entry st).
  destruct (bind_entry this mesh scene key entry st); [reflexivity | apply IH].
Qed.

(** Two ledgers that differ in one entry, resolved alike, are bound alike. *)
Lemma bind_loop_same_outcome this mesh scene key entry entry'
    (before after : Ledger) :
  (forall st, bind_entry this mesh scene key entry st =
              bind_entry this mesh scene key entry' st) ->
  forall st seen seen',
    let r := bind_loop this mesh scene (before ++ (key, entry) :: after) st seen in
    let r' := bind_loop this mesh scene (before ++ (key, entry') :: after) st seen' in
    thrown r = thrown r' /\ final r = final r'.
Proof.
  intros Hsame. induction before as [|[k e] before IH]; intros st seen seen';
    cbn [app bind_loop].
  - rewrite <- Hsame.
    destruct (bind_entry this mesh scene key entry st) as [err|st']; [done|].
    destruct (bind_loop_summary this mesh scene after)
      as (err & w & c & reached & _ & _ & _ & _ & Hloop).
    by rewrite !Hloop.
  - destruct (bind_entry this mesh scene k e st) as [err|st']; [done | apply IH].
Qed.

(** C9: for an entry with a truthy [systemValueType] (every member of the
    enumeration is one) the [switch] on the kind is what runs: the direct
    value is not read, any other direct value gives the same outcome, and a
    bind of a ledger with that entry raises, assigns and calls the same
    whatever the direct value of the entry. *)
Theorem system_value_shadows_direct_value this mesh scene key (k : Z) st
    (v v' : JsValue) :
  k <> 0%Z ->
  bind_entry this mesh scene key
    {| systemValueType := Some k; directValue := v |} st =
  inr (bind_system_value this mesh scene key k st) /\
  bind_entry this mesh scene key
    {| systemValueType := Some k; directValue := v |} st =
  bind_entry this mesh scene key
    {| systemValueType := Some k; directValue := v' |} st /\
  forall (before after : Ledger) (h : Heap),
    let bind := fun x : JsValue =>
      onBind (with_ledger
                (before ++ (key, {| systemValueType := Some k;
                                    directValue := x |}) :: after) this)
        mesh scene h in
    thrown (bind v) = thrown (bind v') /\ final (bind v) = final (bind v').
Proof.
  intros Hk.
  assert (Hsame : forall x y st0,
            bind_entry this mesh scene key
              {| systemValueType := Some k; directValue := x |} st0 =
            bind_entry this mesh scene key
              {| systemValueType := Some k; directValue := y |} st0).
  { intros x y st0.
    transitivity (inr (A := JsError)
                    (bind_system_value this mesh scene key k st0));
      [|symmetry]; by apply bind_entry_system. }
  split; [by apply bind_entry_system|]. split; [apply Hsame|].
  intros before after h bind. subst bind. unfold onBind. cbn [with_ledger
    _shaderMaterial _uniformLedger].
  destruct (_shaderMaterial this); [|done].
  rewrite !bind_loop_with_ledger.
  apply bind_loop_same_outcome. apply Hsame.
Qed.

End Loop.

(** ** The scratch matrices *)

Section Scratch.

Context {ML : MatrixLib} {SV : NodeMaterialSystemValues}.

Implicit Types (this : NodeMaterialRuntimeHelper) (mesh : AbstractMesh)
  (scene : Scene) (key : string) (entry : IUniformLedgerEntry) (st : BindState)
  (entries seen : Ledger).

Lemma bind_entry_heap_length this mesh scene key entry st st' :
  bind_entry this mesh scene key entry st = inr st' ->
  length (bs_heap st') = length (bs_heap st).
Proof.
  destruct (bind_entry_summary this mesh scene key entry)
    as [[e He]|(w & c & _ & _ & Hrun)].
  - rewrite He. discriminate.
  - rewrite Hrun. intros [= <-]. apply write_all_length.
Qed.

Lemma bind_entry_calls_kept this mesh scene key entry st st' (c : EffectCall) :
  bind_entry this mesh scene key entry st = inr st' ->
  c ∈ bs_calls st -> c ∈ bs_calls st'.
Proof.
  destruct (bind_entry_summary this mesh scene key entry)
    as [[e He]|(w & calls & _ & _ & Hrun)].
  - rewrite He. discriminate.
  - rewrite Hrun. intros [= <-] Hc. cbn. apply elem_of_app. by left.
Qed.

(** The case [WorldViewProjection] of the [switch]. *)
Lemma bind_system_value_wvp this mesh scene key st :
  enum_ok ->
  bind_system_value this mesh scene key WorldViewProjection st =
  push_scratch key (_cachedWorldViewProjectionMatrix this)
    (set_heap (multiplyToRef (getWorldMatrix mesh) (getTransformMatrix scene)
                 (_cachedWorldViewProjectionMatrix this) (bs_heap st)) st).
Proof.
  intros Hok. unfold bind_system_value.
  rewrite (enum_ok_distinct 2 0 _ _ Hok eq_refl eq_refl) by lia.
  rewrite (enum_ok_distinct 2 1 _ _ Hok eq_refl eq_refl) by lia.
  by rewrite Z.eqb_refl.
Qed.

(** Once the scratch matrix holds the product for this mesh and scene, no
    entry of the same bind changes it: the other scratch matrix is another
    cell. *)
Lemma bind_entry_keeps_product this mesh scene key entry st st' :
  _cachedWorldViewMatrix this <> _cachedWorldViewProjectionMatrix this ->
  bind_entry this mesh scene key entry st = inr st' ->
  bs_heap st !! _cachedWorldViewProjectionMatrix this =
    Some (multiply (getWorldMatrix mesh) (getTransformMatrix scene)) ->
  bs_heap st' !! _cachedWorldViewProjectionMatrix this =
    Some (multiply (getWorldMatrix mesh) (getTransformMatrix scene)).
Proof.
  intros Hne Hrun Hcell. unfold bind_entry in Hrun.
  destruct (truthy_kind (systemValueType entry)).
  - destruct (systemValueType entry) as [k|]; injection Hrun as <-;
      [|exact Hcell].
    unfold bind_system_value, push_scratch, set_heap, multiplyToRef, push.
    repeat case_match; cbn [bs_heap]; try exact Hcell.
    + by rewrite list_lookup_insert_ne.
    + apply list_lookup_insert_eq. by apply lookup_lt_Some in Hcell.
  - destruct (bind_direct_value_summary key (directValue entry))
      as [[e He]|(calls & _ & _ & Hdirect)].
    + rewrite He in Hrun. discriminate.
    + rewrite Hdirect in Hrun. injection Hrun as <-. exact Hcell.
Qed.

Lemma bind_loop_keeps_product this mesh scene entries :
  _cachedWorldViewMatrix this <> _cachedWorldViewProjectionMatrix this ->
  forall st seen,
    (bs_heap st !! _cachedWorldViewProjectionMatrix this =
       Some (multiply (getWorldMatrix mesh) (getTransformMatrix scene)) ->
     bs_heap (final (bind_loop this mesh scene entries st seen))
       !! _cachedWorldViewProjectionMatrix this =
       Some (multiply (getWorldMatrix mesh) (getTransformMatrix scene))) /\
    (forall c, c ∈ bs_calls st ->
               c ∈ bs_calls (final (bind_loop this mesh scene entries st seen))).
Proof.
  intros Hne. induction entries as [|[key entry] rest IH]; intros st seen;
    cbn [bind_loop]; [done|].
  destruct (bind_entry this mesh scene key entry st) as [e|st'] eqn:Hrun;
    [done|].
  destruct (IH st' (seen ++ [(key, entry)])) as [IHcell IHcalls]. split.
  - intros Hcell. apply IHcell. by eapply bind_entry_keeps_product.
  - intros c Hc. apply IHcalls. by eapply bind_entry_calls_kept.
Qed.

(** An entry of kind [WorldViewProjection] the loop reaches leaves the
    product in the scratch matrix of the helper and hands that matrix to the
    effect. *)
Lemma bind_loop_resolves_wvp this mesh scene entries :
  enum_ok ->
  _cachedWorldViewMatrix this <> _cachedWorldViewProjectionMatrix this ->
  forall st seen key entry,
    _cachedWorldViewProjectionMatrix this < length (bs_heap st) ->
    (key, entry) ∈ visited (bind_loop this mesh scene entries st seen) ->
    systemValueType entry = Some WorldViewProjection ->
    (key, entry) ∈ seen \/
    (bs_heap (final (bind_loop this mesh scene entries st seen))
       !! _cachedWorldViewProjectionMatrix this =
       Some (multiply (getWorldMatrix mesh) (getTransformMatrix scene)) /\
     setMatrix key (Scratch (_cachedWorldViewProjectionMatrix this))
       (multiply (getWorldMatrix mesh) (getTransformMatrix scene))
     ∈ bs_calls (final (bind_loop this mesh scene entries st seen))).
Proof.
  intros Hok Hne.
  assert (Hnz : WorldViewProjection <> 0%Z)
    by (apply enum_ok_nonzero; [exact Hok | by repeat constructor]).
  induction entries as [|[k e] rest IH]; intros st seen key entry Hlen Hin Hkind;
    cbn [bind_loop] in *; [by left|].
  destruct (bind_entry this mesh scene k e st) as [err|st'] eqn:Hrun.
  - cbn in Hin. apply elem_of_app in Hin as [Hin|Hin]; [by left|].
    apply list_elem_of_singleton in Hin. injection Hin as -> ->.
    rewrite (bind_entry_system _ _ _ _ _ _ _ Hkind Hnz) in Hrun. discriminate.
  - assert (Hlen' : _cachedWorldViewProjectionMatrix this < length (bs_heap st'))
      by (by rewrite (bind_entry_heap_length _ _ _ _ _ _ _ Hrun)).
    destruct (IH st' (seen ++ [(k, e)]) key entry Hlen' Hin Hkind)
      as [Hseen|Hdone]; [|by right].
    apply elem_of_app in Hseen as [Hseen|Hhere]; [by left|]. right.
    apply list_elem_of_singleton in Hhere. injection Hhere as -> ->.
    rewrite (bind_entry_system _ _ _ _ _ _ _ Hkind Hnz) in Hrun.
    injection Hrun as <-. rewrite (bind_system_value_wvp _ _ _ _ _ Hok).
    destruct (bind_loop_keeps_product this mesh scene rest Hne
                (push_scratch k (_cachedWorldViewProjectionMatrix this)
                   (set_heap (multiplyToRef (getWorldMatrix mesh)
                                (getTransformMatrix scene)
                                (_cachedWorldViewProjectionMatrix this)
                                (bs_heap st)) st))
                (seen ++ [(k, e)])) as [Hcell Hcalls].
    rewrite (bind_system_value_wvp _ _ _ _ _ Hok) in Hlen'.
    split.
    + apply Hcell. cbn. by apply list_lookup_insert_eq.
    + apply Hcalls. unfold push_scratch, push, set_heap, multiplyToRef.
      cbn [bs_calls bs_heap]. apply elem_of_app. right.
      rewrite list_lookup_total_insert_eq by exact Hlen. left.
Qed.

End Scratch.

(** ** The states of a helper *)

Section Lifecycle.

Context {ML : MatrixLib} {SV : NodeMaterialSystemValues}.

Implicit Types (s : State) (mesh : AbstractMesh) (scene : Scene).

Lemma constructor_consistent (h0 : Heap) : consistent h0 (constructor h0).
Proof.
  unfold consistent, constructor, alloc_identity. cbn.
  rewrite !length_app. cbn. repeat split; try lia. apply NoDup_nil_2.
Qed.

Lemma onBuild_scratch (material : NodeMaterial) s :
  _cachedWorldViewMatrix (helper (onBuild material s)) =
    _cachedWorldViewMatrix (helper s) /\
  _cachedWorldViewProjectionMatrix (helper (onBuild material s)) =
    _cachedWorldViewProjectionMatrix (helper s) /\
  heap (onBuild material s) = heap s.
Proof. unfold onBuild. by destruct (record_input_blocks _ _). Qed.

Lemma onBuild_consistent (h0 : Heap) (material : NodeMaterial) s :
  consistent h0 s -> consistent h0 (onBuild material s).
Proof.
  intros (Hwv & Hwvp & Hlen & Hnd). unfold consistent.
  destruct (onBuild_scratch material s) as (-> & -> & ->).
  repeat split; try done.
  change (NoDup (ledger_keys (ledger (helper (onBuild material s))))).
  rewrite onBuild_ledger. by apply record_input_blocks_NoDup.
Qed.

Lemma step_consistent (h0 : Heap) s (a : Action) :
  consistent h0 s -> consistent h0 (step s a).
Proof.
  intros Hs. destruct a as [material| |mesh scene|key entry|o]; cbn [step].
  - unfold notify_build. destruct (build_observer s); [|exact Hs].
    apply onBuild_consistent. exact Hs.
  - exact Hs.
  - destruct Hs as (Hwv & Hwvp & Hlen & Hnd). repeat split; try done.
    cbn [heap]. by rewrite onBind_heap_length.
  - destruct Hs as (Hwv & Hwvp & Hlen & Hnd). repeat split; try done.
    cbn. by apply NoDup_ledger_keys_set.
  - exact Hs.
Qed.

(** Whatever happens to a helper after its construction, its scratch matrices
    stay the two cells allocated then, and the names of its ledger stay
    distinct. *)
Lemma run_consistent (h0 : Heap) (actions : list Action) :
  consistent h0 (run (constructor h0) actions).
Proof.
  unfold run. generalize (constructor_consistent h0).
  generalize (constructor h0). induction actions as [|a actions IH];
    intros s Hs; cbn [fold_left]; [exact Hs|].
  apply IH. by apply step_consistent.
Qed.

(** What a bind leaves behind, read off the ledger. *)
Lemma onBind_summary (this : NodeMaterialRuntimeHelper) mesh scene (h : Heap) :
  let r := onBind this mesh scene h in
  (forall c, c ∈ bs_calls (final r) ->
     exists entry, (call_name c, entry) ∈ visited r /\ entry <> empty_entry) /\
  visited r `prefix_of` ledger this /\
  (forall e, thrown r = Some e ->
     _shaderMaterial this = None \/
     exists key entry, last (visited r) = Some (key, entry) /\
                       resolvable entry = false).
Proof.
  unfold onBind, ledger. destruct (_shaderMaterial this) as [sm|]; cbn zeta.
  - destruct (bind_loop_summary this mesh scene (_uniformLedger this))
      as (err & w & c & reached & Hcalls & Hprefix & _ & Hlast & Hloop).
    rewrite Hloop. cbn. repeat split; try done.
    + intros x Hx. by eapply Hcalls.
    + intros e He. right. by apply (Hlast e).
  - cbn. repeat split.
    + intros c Hc. by apply elem_of_nil in Hc.
    + apply prefix_nil.
    + intros e _. by left.
Qed.

(** C5: take a helper constructed on any heap, after anything that happened
    to it since, and two binds in a row, each reaching an entry of kind
    [WorldViewProjection]. The matrix handed to [setMatrix] for that entry is
    both times the cell the constructor allocated for
    [_cachedWorldViewProjectionMatrix] (a cell that did not exist before the
    construction); neither bind allocates; and after each bind the cell holds
    the product of the world matrix of that bind's mesh by the transform
    matrix of that bind's scene. *)
Theorem scratch_matrix_reused (h0 : Heap) (actions : list Action)
    mesh1 scene1 mesh2 scene2 (key1 key2 : string)
    (entry1 entry2 : IUniformLedgerEntry) :
  enum_ok ->
  let s := run (constructor h0) actions in
  let wvp := _cachedWorldViewProjectionMatrix (helper (constructor h0)) in
  let r1 := onBind (helper s) mesh1 scene1 (heap s) in
  let r2 := onBind (helper s) mesh2 scene2 (bs_heap (final r1)) in
  (key1, entry1) ∈ visited r1 ->
  systemValueType entry1 = Some WorldViewProjection ->
  (key2, entry2) ∈ visited r2 ->
  systemValueType entry2 = Some WorldViewProjection ->
  h0 !! wvp = None /\
  heap (constructor h0) !! wvp = Some Matrix_Identity /\
  _cachedWorldViewProjectionMatrix (helper s) = wvp /\
  setMatrix key1 (Scratch wvp)
    (multiply (getWorldMatrix mesh1) (getTransformMatrix scene1))
    ∈ bs_calls (final r1) /\
  setMatrix key2 (Scratch wvp)
    (multiply (getWorldMatrix mesh2) (getTransformMatrix scene2))
    ∈ bs_calls (final r2) /\
  length (bs_heap (final r1)) = length (heap s) /\
  length (bs_heap (final r2)) = length (heap s) /\
  bs_heap (final r1) !! wvp =
    Some (multiply (getWorldMatrix mesh1) (getTransformMatrix scene1)) /\
  bs_heap (final r2) !! wvp =
    Some (multiply (getWorldMatrix mesh2) (getTransformMatrix scene2)).
Proof.
  intros Hok s wvp r1 r2 Hin1 Hkind1 Hin2 Hkind2.
  destruct (run_consistent h0 actions) as (Hwv & Hwvp & Hlen & _).
  fold s in Hwv, Hwvp, Hlen.
  assert (Hcell : wvp = S (length h0)).
  { subst wvp. unfold constructor, alloc_identity. cbn. by rewrite length_app, Nat.add_1_r. }
  assert (Hsame : _cachedWorldViewProjectionMatrix (helper s) = wvp) by congruence.
  assert (Hne : _cachedWorldViewMatrix (helper s) <>
                _cachedWorldViewProjectionMatrix (helper s)) by lia.
  assert (Hlen1 : length (bs_heap (final r1)) = length (heap s))
    by apply onBind_heap_length.
  assert (Hlen2 : length (bs_heap (final r2)) = length (heap s)).
  { subst r2. by rewrite onBind_heap_length. }
  assert (Hbind : forall mesh scene (h : Heap) key entry,
            length h = length (heap s) ->
            (key, entry) ∈ visited (onBind (helper s) mesh scene h) ->
            systemValueType entry = Some WorldViewProjection ->
            bs_heap (final (onBind (helper s) mesh scene h)) !! wvp =
              Some (multiply (getWorldMatrix mesh) (getTransformMatrix scene)) /\
            setMatrix key (Scratch wvp)
              (multiply (getWorldMatrix mesh) (getTransformMatrix scene))
            ∈ bs_calls (final (onBind (helper s) mesh scene h))).
  { intros mesh scene h key entry Hh Hin Hkind. rewrite <- Hsame.
    unfold onBind in *. destruct (_shaderMaterial (helper s));
      [|by apply elem_of_nil in Hin].
    destruct (bind_loop_resolves_wvp (helper s) mesh scene
                (_uniformLedger (helper s)) Hok Hne
                {| bs_heap := h; bs_calls := [] |} [] key entry)
      as [Hnil|Hdone]; try done.
    - cbn. lia.
    - by apply elem_of_nil in Hnil. }
  destruct (Hbind mesh1 scene1 (heap s) key1 entry1 eq_refl Hin1 Hkind1)
    as [Hcell1 Hcall1].
  destruct (Hbind mesh2 scene2 (bs_heap (final r1)) key2 entry2 Hlen1 Hin2 Hkind2)
    as [Hcell2 Hcall2].
  repeat split; try done.
  - apply lookup_ge_None_2. lia.
  - rewrite Hcell. unfold constructor, alloc_identity. cbn.
    rewrite lookup_app_r by (rewrite length_app; cbn; lia).
    rewrite length_app. cbn. by replace (S (length h0) - (length h0 + 1)) with 0 by lia.
Qed.

(** X19: take a helper after anything that happened to it since its
    construction, with an entry under [key] that has neither a system value
    type nor a direct value. A bind makes no call on the effect for [key];
    the body of the loop returns normally on that entry and changes nothing;
    if the bind raises, it is not at that entry; and the bind completes,
    having reached every entry, when the shader material exists and every
    other entry is resolvable. *)
Theorem inert_entry_silent (h0 : Heap) (actions : list Action) mesh scene
    (key : string) :
  let s := run (constructor h0) actions in
  let r := onBind (helper s) mesh scene (heap s) in
  ledger_get (ledger (helper s)) key = Some empty_entry ->
  (forall c, c ∈ bs_calls (final r) -> call_name c <> key) /\
  (forall st, bind_entry (helper s) mesh scene key empty_entry st = inr st) /\
  (forall e, thrown r = Some e -> last (visited r) <> Some (key, empty_entry)) /\
  (_shaderMaterial (helper s) <> None ->
   (forall key' entry', (key', entry') ∈ ledger (helper s) -> key' <> key ->
                        resolvable entry' = true) ->
   thrown r = None /\ visited r = ledger (helper s)).
Proof.
  intros s r Hinert.
  destruct (run_consistent h0 actions) as (_ & _ & _ & Hnd). fold s in Hnd.
  destruct (onBind_summary (helper s) mesh scene (heap s))
    as (Hcalls & Hprefix & Hthrown). fold r in Hcalls, Hprefix, Hthrown.
  assert (Hunique : forall entry, (key, entry) ∈ ledger (helper s) ->
                                  entry = empty_entry).
  { intros entry Hin. apply (elem_of_ledger_get _ _ _ Hnd) in Hin.
    unfold ledger in Hinert. congruence. }
  split; [|split; [done|split]].
  - intros c Hc Hname. destruct (Hcalls c Hc) as (entry & Hin & Hne).
    apply Hne, Hunique. rewrite <- Hname. by eapply elem_of_prefix.
  - intros e He Hlast. destruct (Hthrown e He) as [Hnone|(k & entry & Hl & Hbad)].
    + subst r. unfold onBind in Hlast. rewrite Hnone in Hlast. discriminate.
    + rewrite Hlast in Hl. injection Hl as <- <-. discriminate.
  - intros Hsm Hothers. apply onBind_resolvable; [exact Hsm|].
    intros key' entry' Hin.
    destruct (decide (key' = key)) as [->|Hne]; [|by eapply Hothers].
    by rewrite (Hunique entry' Hin).
Qed.

End Lifecycle.

(** ** Disposal *)

Section Disposal.

Context {ML : MatrixLib} {SV : NodeMaterialSystemValues}.

(** The ledger a helper has after some actions depends on the state they
    start from only through its ledger and its registration on the build
    signal. *)
Lemma run_ledger (s1 s2 : State) (actions : list Action) :
  ledger (helper s1) = ledger (helper s2) ->
  build_observer s1 = build_observer s2 ->
  ledger (helper (run s1 actions)) = ledger (helper (run s2 actions)).
Proof.
  revert s1 s2. unfold run.
  induction actions as [|a actions IH]; intros s1 s2 Hl Hb; cbn [fold_left];
    [exact Hl|].
  assert (Hbuild : forall material,
            ledger (helper (notify_build material s1)) =
              ledger (helper (notify_build material s2)) /\
            build_observer (notify_build material s1) =
              build_observer (notify_build material s2)).
  { intros material. unfold notify_build. rewrite Hb.
    destruct (build_observer s2) eqn:Hb2; [|split; [exact Hl | congruence]].
    rewrite !onBuild_ledger. cbn [helper]. unfold ledger in Hl. rewrite Hl.
    split; [reflexivity|]. unfold onBuild.
    by destruct (record_input_blocks _ _), (record_input_blocks _ _). }
  apply IH; destruct a as [material| |mesh scene|key entry|o]; cbn [step];
    try exact Hl; try exact Hb; try apply Hbuild.
  unfold ledger in *. cbn. by rewrite Hl.
Qed.

(** C10: [dispose()] leaves the ledger as it was: after the call the getter
    [ledger] returns the mapping it returned before, with the same entries in
    the same order, whatever the state of the helper; and whatever happens
    next, the ledger is the one the helper would have had without the
    disposal. *)
Theorem dispose_keeps_ledger (s : State) (actions : list Action) :
  ledger (helper (dispose s)) = ledger (helper s) /\
  ledger (helper (run (dispose s) actions)) = ledger (helper (run s actions)).
Proof.
  split; [reflexivity|]. apply run_ledger; reflexivity.
Qed.

(** C7: a second [dispose()] in a row changes nothing at all and disposes no
    shader material again; after the first call as after the second the
    helper has no shader material; the first call disposes the shader
    material when there is one and only clears the observers when there is
    none, as on a helper just constructed. Disposal has no way to raise. *)
Theorem dispose_idempotent (s : State) :
  dispose (dispose s) = dispose s /\
  _shaderMaterial (helper (dispose s)) = None /\
  _shaderMaterial (helper (dispose (dispose s))) = None /\
  events (dispose (dispose s)) = events (dispose s) /\
  match _shaderMaterial (helper s) with
  | Some sm => events (dispose s) = events s ++ [ShaderMaterialDisposed sm]
  | None => events (dispose s) = events s
  end /\
  forall h0 : Heap, dispose (constructor h0) = constructor h0.
Proof.
  split; [reflexivity|]. split; [reflexivity|]. split; [reflexivity|].
  split; [reflexivity|]. split; [|reflexivity].
  unfold dispose. cbn [events helper].
  destruct (_shaderMaterial (helper s)); reflexivity.
Qed.

(** Disposal leaves the registration on the build signal of the material in
    place, so that a later signal still builds the ledger and creates a
    shader material. *)
Lemma build_after_dispose (material : NodeMaterial) (s : State) :
  build_observer (dispose s) = build_observer s /\
  (build_observer s = true ->
   _shaderMaterial (helper (notify_build material (dispose s))) <> None).
Proof.
  split; [reflexivity|]. intros Hobs. unfold notify_build.
  cbn [dispose build_observer]. rewrite Hobs, onBuild_shaderMaterial. discriminate.
Qed.

End Disposal.

(** ** Concrete helpers *)

Lemma Numbered_ok : enum_ok (SV := Numbered).
Proof. apply (bool_decide_unpack _). vm_compute. exact I. Defined.

(** C1 fails on the code: a helper disposed before the build signal still has
    its observer on that signal; when the signal fires, the observer creates
    a shader material, which the helper then holds. *)
Theorem dispose_before_build_creates_shader :
  let s := run (ML := ScalarMatrices) (SV := Numbered) (constructor [])
             [Dispose; Build sample_material] in
  let sm := {| sm_name := "shaderMaterial"; sm_vertexSource := "vertex";
               sm_fragmentSource := "fragment";
               sm_uniforms := ["u_wvp"; "u_params"; "u_tint"; "u_unused"] |} in
  _shaderMaterial (helper s) = Some sm /\
  events s = [ShaderMaterialCreated sm].
Proof. split; reflexivity. Qed.

(** C4 fails on the code: the ledger built from a material with a float
    uniform of value 2.5 holds that number as a direct value; the bind reads
    [getClassName] from it, raises a [TypeError] at that entry and never
    reaches the entry after it. *)
Theorem bind_raises_on_number :
  let s := run (ML := ScalarMatrices) (SV := Numbered) (constructor [])
             [Build float_material] in
  let r := onBind (SV := Numbered) (helper s) sample_mesh sample_scene
             (heap s) in
  ledger (helper s) =
    [("u_speed", {| systemValueType := None; directValue := JsNumber 2.5 |});
     ("u_World", {| systemValueType := Some 1%Z; directValue := JsUndefined |})] /\
  thrown r = Some (TypeError "value.getClassName is not a function") /\
  visited r =
    [("u_speed", {| systemValueType := None; directValue := JsNumber 2.5 |})] /\
  bs_calls (final r) = [].
Proof. repeat split; reflexivity. Qed.

(** C6 fails on the code: the ledger built from a material with a uniform
    without a value and a float uniform of value 2.5 has an inert entry, for
    which nothing is pushed, but the bind does not complete without error: it
    raises the [TypeError] of the entry that holds the number. *)
Theorem bind_with_inert_entry_raises :
  let material :=
    {| compilationStrings := {| vertex := "vertex"; fragment := "fragment" |};
       getInputBlocks :=
         [ uniform_block "u_unused" None JsUndefined;
           uniform_block "u_speed" None (JsNumber 2.5) ] |} in
  let s := run (ML := ScalarMatrices) (SV := Numbered) (constructor [])
             [Build material] in
  let r := onBind (SV := Numbered) (helper s) sample_mesh sample_scene
             (heap s) in
  ledger_get (ledger (helper s)) "u_unused" = Some empty_entry /\
  _shaderMaterial (helper s) <> None /\
  thrown r = Some (TypeError "value.getClassName is not a function") /\
  visited r =
    [("u_unused", empty_entry);
     ("u_speed", {| systemValueType := None; directValue := JsNumber 2.5 |})] /\
  bs_calls (final r) = [].
Proof. repeat split; (reflexivity || discriminate). Qed.

(** [camera_parameters_pushed] at the sample scenes. *)
Lemma camera_parameters_pushed_witness :
  let this := helper (run (ML := ScalarMatrices) (SV := Numbered)
                        (constructor []) [Build sample_material]) in
  let entry := {| systemValueType := Some 10%Z; directValue := JsUndefined |} in
  let st := {| bs_heap := [scalar 1; scalar 1]; bs_calls := [] |} in
  bind_entry (SV := Numbered) this sample_mesh sample_scene "u_params" entry st =
    inr {| bs_heap := [scalar 1; scalar 1];
           bs_calls := [setFloat4 "u_params" (-1) 0.1 100 0.01] |} /\
  bind_entry (SV := Numbered) this sample_mesh sample_scene_no_camera
    "u_params" entry st = inr st.
Proof.
  intros this entry st.
  destruct (camera_parameters_pushed (SV := Numbered) this sample_mesh
              sample_scene "u_params" entry st Numbered_ok eq_refl)
    as [Hcamera _].
  destruct (camera_parameters_pushed (SV := Numbered) this sample_mesh
              sample_scene_no_camera "u_params" entry st Numbered_ok eq_refl)
    as [_ Hnone].
  split.
  - exact (Hcamera _ eq_refl).
  - exact (Hnone eq_refl).
Defined.

(** [system_value_shadows_direct_value] at the kind [World] with a colour as
    direct value. *)
Lemma system_value_shadows_direct_value_witness :
  let this := helper (run (ML := ScalarMatrices) (SV := Numbered)
                        (constructor []) [Build sample_material]) in
  let st := {| bs_heap := [scalar 1; scalar 1]; bs_calls := [] |} in
  bind_entry (SV := Numbered) this sample_mesh sample_scene "u_World"
    {| systemValueType := Some 1%Z; directValue := JsObj (Color3 1 1 1) |} st =
  inr {| bs_heap := [scalar 1; scalar 1];
         bs_calls := [setMatrix "u_World" SceneOwned (scalar 5)] |} /\
  bind_entry (SV := Numbered) this sample_mesh sample_scene "u_World"
    {| systemValueType := Some 1%Z; directValue := JsObj (Color3 1 1 1) |} st =
  bind_entry (SV := Numbered) this sample_mesh sample_scene "u_World"
    {| systemValueType := Some 1%Z; directValue := JsNumber 2.5 |} st.
Proof.
  intros this st.
  destruct (system_value_shadows_direct_value (SV := Numbered) this sample_mesh
              sample_scene "u_World" 1%Z st (JsObj (Color3 1 1 1))
              (JsNumber 2.5)) as (Hswitch & Hsame & _); [discriminate|].
  split; [exact Hswitch | exact Hsame].
Defined.

(** [scratch_matrix_reused] at two binds of the sample material, with two
    scenes. *)
Lemma scratch_matrix_reused_witness :
  let s := run (ML := ScalarMatrices) (SV := Numbered) (constructor [])
             [Build sample_material] in
  let entry := {| systemValueType := Some 6%Z; directValue := JsUndefined |} in
  let r1 := onBind (SV := Numbered) (helper s) sample_mesh sample_scene (heap s) in
  let r2 := onBind (SV := Numbered) (helper s) sample_mesh sample_scene_no_camera
              (bs_heap (final r1)) in
  ("u_wvp", entry) ∈ visited r1 /\
  ("u_wvp", entry) ∈ visited r2 /\
  _cachedWorldViewProjectionMatrix (helper s) = 1 /\
  setMatrix "u_wvp" (Scratch 1) (scalar 30) ∈ bs_calls (final r1) /\
  setMatrix "u_wvp" (Scratch 1) (scalar 385) ∈ bs_calls (final r2) /\
  length (bs_heap (final r1)) = 2 /\
  length (bs_heap (final r2)) = 2 /\
  bs_heap (final r1) !! 1 = Some (scalar 30) /\
  bs_heap (final r2) !! 1 = Some (scalar 385).
Proof.
  intros s entry r1 r2.
  assert (H1 : ("u_wvp", entry) ∈ visited r1) by (vm_compute; left).
  assert (H2 : ("u_wvp", entry) ∈ visited r2) by (vm_compute; left).
  split; [exact H1|]. split; [exact H2|].
  exact (proj2 (proj2
    (scratch_matrix_reused (ML := ScalarMatrices) (SV := Numbered) []
       [Build sample_material] sample_mesh sample_scene sample_mesh
       sample_scene_no_camera "u_wvp" "u_wvp" entry entry Numbered_ok
       H1 eq_refl H2 eq_refl))).
Defined.

(** [inert_entry_silent] at the uniform of the sample material that has no
    value. *)
Lemma inert_entry_silent_witness :
  let s := run (ML := ScalarMatrices) (SV := Numbered) (constructor [])
             [Build sample_material] in
  let r := onBind (SV := Numbered) (helper s) sample_mesh sample_scene (heap s) in
  ledger_get (ledger (helper s)) "u_unused" = Some empty_entry /\
  (forall c, c ∈ bs_calls (final r) -> call_name c <> "u_unused") /\
  (forall e, thrown r = Some e ->
             last (visited r) <> Some ("u_unused", empty_entry)).
Proof.
  intros s r. split; [reflexivity|].
  destruct (inert_entry_silent (ML := ScalarMatrices) (SV := Numbered) []
              [Build sample_material] sample_mesh sample_scene "u_unused"
              eq_refl) as (Hcalls & _ & Hthrown & _).
  split; [exact Hcalls | exact Hthrown].
Defined.

(** ** The scenarios of the specification *)

(** A bind of the sample material: the product through the scratch matrix,
    the camera parameters, the colour with its alpha, and nothing for the
    uniform without a value. *)
Example bind_sample_material :
  let s := run (ML := ScalarMatrices) (SV := Numbered) (constructor [])
             [Build sample_material] in
  let r := onBind (SV := Numbered) (helper s) sample_mesh sample_scene (heap s) in
  thrown r = None /\
  visited r = ledger (helper s) /\
  bs_heap (final r) = [scalar 1; scalar 30] /\
  bs_calls (final r) =
    [setMatrix "u_wvp" (Scratch 1) (scalar 30);
     setFloat4 "u_params" (-1) 0.1 100 0.01;
     setColor4 "u_tint" (Color4 1 0 0 0.5) (JsNumber 0.5)].
Proof. repeat split; reflexivity. Qed.

(** Without an active camera nothing is pushed for the camera parameters. *)
Example bind_without_camera :
  let s := run (ML := ScalarMatrices) (SV := Numbered) (constructor [])
             [Build sample_material] in
  let r := onBind (SV := Numbered) (helper s) sample_mesh sample_scene_no_camera
             (heap s) in
  thrown r = None /\
  bs_calls (final r) =
    [setMatrix "u_wvp" (Scratch 1) (scalar 385);
     setColor4 "u_tint" (Color4 1 0 0 0.5) (JsNumber 0.5)].
Proof. repeat split; reflexivity. Qed.

(** Build, then two disposals. *)
Example dispose_twice :
  let s := run (ML := ScalarMatrices) (SV := Numbered) (constructor [])
             [Build sample_material; Dispose; Dispose] in
  _shaderMaterial (helper s) = None /\
  length (events s) = 2 /\
  ledger_keys (ledger (helper s)) = ["u_wvp"; "u_params"; "u_tint"; "u_unused"].
Proof. repeat split; reflexivity. Qed.

(** * Further properties of the helper *)

(** ** The cases of the bind handler *)

Section Dispatch.

Context {ML : MatrixLib} {SV : NodeMaterialSystemValues}.

Implicit Types (this : NodeMaterialRuntimeHelper) (mesh : AbstractMesh)
  (scene : Scene) (key : string) (entry : IUniformLedgerEntry) (st : BindState).

(** Walks the labels of the [switch] down to the one at position [i]. *)
Local Ltac take_label Hok i :=
  unfold bind_system_value;
  repeat first
    [ rewrite Z.eqb_refl
    | rewrite (enum_ok_distinct i 0 _ _ Hok eq_refl eq_refl) by lia
    | rewrite (enum_ok_distinct i 1 _ _ Hok eq_refl eq_refl) by lia
    | rewrite (enum_ok_distinct i 2 _ _ Hok eq_refl eq_refl) by lia
    | rewrite (enum_ok_distinct i 3 _ _ Hok eq_refl eq_refl) by lia
    | rewrite (enum_ok_distinct i 4 _ _ Hok eq_refl eq_refl) by lia
    | rewrite (enum_ok_distinct i 5 _ _ Hok eq_refl eq_refl) by lia
    | rewrite (enum_ok_distinct i 6 _ _ Hok eq_refl eq_refl) by lia
    | rewrite (enum_ok_distinct i 7 _ _ Hok eq_refl eq_refl) by lia
    | rewrite (enum_ok_distinct i 8 _ _ Hok eq_refl eq_refl) by lia
    | rewrite (enum_ok_distinct i 9 _ _ Hok eq_refl eq_refl) by lia ].

(** X1: the seven kinds that need no scratch matrix each make exactly one
    call for the key and leave the heap alone: the world matrix of the mesh
    for [World]; the view, projection and transform matrices of the scene
    for [View], [Projection] and [ViewProjection]; [bindEyePosition] with
    its flag set for [CameraPosition]; the fog colour for [FogColor]; the
    delta time divided by 1000 for [DeltaTime]. The direct value of the
    entry plays no part. *)
Theorem system_values_pushed this mesh scene key (v : JsValue) st :
  enum_ok ->
  let resolve := fun k : Z =>
    bind_entry this mesh scene key
      {| systemValueType := Some k; directValue := v |} st in
  let pushed := fun c : EffectCall =>
    inr (A := JsError)
      {| bs_heap := bs_heap st; bs_calls := bs_calls st ++ [c] |} in
  resolve World = pushed (setMatrix key SceneOwned (getWorldMatrix mesh)) /\
  resolve View = pushed (setMatrix key SceneOwned (getViewMatrix scene)) /\
  resolve Projection =
    pushed (setMatrix key SceneOwned (getProjectionMatrix scene)) /\
  resolve ViewProjection =
    pushed (setMatrix key SceneOwned (getTransformMatrix scene)) /\
  resolve CameraPosition = pushed (bindEyePosition key true) /\
  resolve FogColor = pushed (setColor3 key (fogColor scene)) /\
  resolve DeltaTime = pushed (setFloat key (deltaTime scene / 1000)%float).
Proof.
  intros Hok resolve pushed. subst resolve pushed. cbv beta.
  assert (Hsw : forall i k, members !! i = Some k ->
            bind_entry this mesh scene key
              {| systemValueType := Some k; directValue := v |} st =
            inr (bind_system_value this mesh scene key k st)).
  { intros i k Hk. apply bind_entry_system; [reflexivity|].
    apply enum_ok_nonzero; [exact Hok|]. by apply list_elem_of_lookup_2 in Hk. }
  repeat split.
  - rewrite (Hsw 0 World eq_refl). take_label Hok 0. reflexivity.
  - rewrite (Hsw 3 View eq_refl). take_label Hok 3. reflexivity.
  - rewrite (Hsw 4 Projection eq_refl). take_label Hok 4. reflexivity.
  - rewrite (Hsw 5 ViewProjection eq_refl). take_label Hok 5. reflexivity.
  - rewrite (Hsw 6 CameraPosition eq_refl). take_label Hok 6. reflexivity.
  - rewrite (Hsw 7 FogColor eq_refl). take_label Hok 7. reflexivity.
  - rewrite (Hsw 8 DeltaTime eq_refl). take_label Hok 8. reflexivity.
Qed.

(** X2: a truthy kind that is no member of the enumeration matches no label
    of the [switch]: the entry makes no call, changes no matrix and raises
    nothing, whatever its direct value. *)
Theorem unknown_kind_skipped this mesh scene key (k : Z) (v : JsValue) st :
  k <> 0%Z ->
  k ∉ members ->
  bind_entry this mesh scene key
    {| systemValueType := Some k; directValue := v |} st = inr st.
Proof.
  intros Hnz Hout.
  rewrite (bind_entry_system this mesh scene key
             {| systemValueType := Some k; directValue := v |} st k eq_refl Hnz).
  unfold members in Hout. rewrite !not_elem_of_cons in Hout.
  destruct Hout as (H0 & H1 & H2 & H3 & H4 & H5 & H6 & H7 & H8 & H9 & _).
  unfold bind_system_value.
  by rewrite (proj2 (Z.eqb_neq _ _) H0), (proj2 (Z.eqb_neq _ _) H1),
    (proj2 (Z.eqb_neq _ _) H2), (proj2 (Z.eqb_neq _ _) H3),
    (proj2 (Z.eqb_neq _ _) H4), (proj2 (Z.eqb_neq _ _) H5),
    (proj2 (Z.eqb_neq _ _) H6), (proj2 (Z.eqb_neq _ _) H7),
    (proj2 (Z.eqb_neq _ _) H8), (proj2 (Z.eqb_neq _ _) H9).
Qed.

(** X3: an entry whose kind is absent or [0] is resolved by its direct
    value. A [Vector3], [Vector4], [Color3] or [Color4] object makes the one
    call of its class, [setColor4] receiving the [a] of the colour as alpha;
    an object of any other class name makes no call; so does a falsy value
    ([undefined], [null], [false], [0], [NaN], the empty string). None of them
    raises or touches the heap. *)
Theorem direct_values_pushed this mesh scene key (k : option Z) st :
  truthy_kind k = false ->
  let resolve := fun v : JsValue =>
    bind_entry this mesh scene key
      {| systemValueType := k; directValue := v |} st in
  let pushed := fun c : EffectCall =>
    inr (A := JsError)
      {| bs_heap := bs_heap st; bs_calls := bs_calls st ++ [c] |} in
  (forall x y z, resolve (JsObj (Vector3 x y z)) =
                 pushed (setVector3 key (Vector3 x y z))) /\
  (forall x y z w, resolve (JsObj (Vector4 x y z w)) =
                   pushed (setVector4 key (Vector4 x y z w))) /\
  (forall r g b, resolve (JsObj (Color3 r g b)) =
                 pushed (setColor3 key (Color3 r g b))) /\
  (forall r g b a, resolve (JsObj (Color4 r g b a)) =
                   pushed (setColor4 key (Color4 r g b a) (JsNumber a))) /\
  (forall n, n ∉ ["Vector3"; "Vector4"; "Color3"; "Color4"] ->
             resolve (JsObj (ClassInstance n)) = inr st) /\
  (forall v, truthy v = false -> resolve v = inr st).
Proof.
  intros Hk resolve pushed. subst resolve pushed. cbv beta.
  split; [|split; [|split; [|split; [|split]]]].
  - intros x y z. by rewrite bind_entry_direct.
  - intros x y z w. by rewrite bind_entry_direct.
  - intros r g b. by rewrite bind_entry_direct.
  - intros r g b a. by rewrite bind_entry_direct.
  - intros n Hn. rewrite bind_entry_direct by exact Hk. cbn. unfold bind_class.
    rewrite !not_elem_of_cons in Hn. destruct Hn as (H1 & H2 & H3 & H4 & _).
    by rewrite (proj2 (String.eqb_neq _ _) H1), (proj2 (String.eqb_neq _ _) H2),
      (proj2 (String.eqb_neq _ _) H3), (proj2 (String.eqb_neq _ _) H4).
  - intros v Hv. rewrite bind_entry_direct by exact Hk. cbn [directValue].
    unfold bind_direct_value. by rewrite Hv.
Qed.

End Dispatch.

(** ** A whole bind, entry by entry *)

Section BindFacts.

Context {ML : MatrixLib} {SV : NodeMaterialSystemValues}.

Implicit Types (this : NodeMaterialRuntimeHelper) (mesh : AbstractMesh)
  (scene : Scene) (key : string) (entry : IUniformLedgerEntry) (st : BindState)
  (entries seen : Ledger) (p : string * IUniformLedgerEntry).

(** The body of the loop raises exactly on the entries that are not
    resolvable, and always the same error. *)
Lemma bind_entry_resolvable this mesh scene key entry st :
  if resolvable entry
  then exists st', bind_entry this mesh scene key entry st = inr st'
  else bind_entry this mesh scene key entry st =
       inl (TypeError "value.getClassName is not a function").
Proof.
  unfold resolvable, bind_entry, bind_direct_value.
  destruct (truthy_kind (systemValueType entry)); cbn [orb].
  - destruct (systemValueType entry); eauto.
  - destruct (truthy (directValue entry)); cbn [negb orb]; [|eauto].
    destruct (directValue entry) as [| | | | |o]; try reflexivity.
    destruct (getClassName o); cbn; eauto.
Qed.

Lemma bind_entry_own_calls this mesh scene key entry st st' :
  bind_entry this mesh scene key entry st = inr st' ->
  bs_calls st' = bs_calls st ++ own_calls this mesh scene (bs_heap st) (key, entry).
Proof.
  unfold own_calls. cbn [fst snd].
  destruct (bind_entry_summary this mesh scene key entry)
    as [[e He]|(w & c & _ & _ & Hrun)].
  - rewrite He. discriminate.
  - rewrite !Hrun. by intros [= <-].
Qed.

Lemma own_calls_length this mesh scene (h1 h2 : Heap) p :
  length h1 = length h2 ->
  own_calls this mesh scene h1 p = own_calls this mesh scene h2 p.
Proof.
  intros Hlen. unfold own_calls.
  destruct (bind_entry_summary this mesh scene p.1 p.2)
    as [[e He]|(w & c & _ & _ & Hrun)].
  - by rewrite !He.
  - rewrite !Hrun. cbn. by rewrite Hlen.
Qed.

Lemma own_calls_named this mesh scene (h : Heap) p (c : EffectCall) :
  c ∈ own_calls this mesh scene h p -> call_name c = p.1.
Proof.
  unfold own_calls.
  destruct (bind_entry_summary this mesh scene p.1 p.2)
    as [[e He]|(w & calls & Hnamed & _ & Hrun)].
  - rewrite He. intros Hc. by apply elem_of_nil in Hc.
  - rewrite Hrun. cbn. intros Hc.
    pose proof (Hnamed (length h)) as Hn. rewrite Forall_forall in Hn. auto.
Qed.

(** An entry makes one call at most. *)
Lemma own_calls_at_most_one this mesh scene (h : Heap) p :
  length (own_calls this mesh scene h p) <= 1.
Proof.
  unfold own_calls, bind_entry, bind_direct_value, bind_system_value, bind_class,
    push_scratch, set_heap, push.
  repeat case_match; simplify_eq; cbn; lia.
Qed.

(** The calls of the loop are those of the entries it reaches, in order. *)
Lemma bind_loop_calls this mesh scene entries st seen :
  exists reached,
    visited (bind_loop this mesh scene entries st seen) = seen ++ reached /\
    bs_calls (final (bind_loop this mesh scene entries st seen)) =
      bs_calls st ++ flat_map (own_calls this mesh scene (bs_heap st)) reached.
Proof.
  revert st seen. induction entries as [|[key entry] rest IH]; intros st seen;
    cbn [bind_loop].
  - exists []. cbn. by rewrite !app_nil_r.
  - destruct (bind_entry this mesh scene key entry st) as [e|st'] eqn:Hrun.
    + exists [(key, entry)]. split; [reflexivity|]. cbn.
      unfold own_calls. cbn [fst snd].
      destruct (bind_entry_summary this mesh scene key entry)
        as [[e' He]|(w & c & _ & _ & Hsum)].
      * rewrite He. by rewrite !app_nil_r.
      * rewrite Hsum in Hrun. discriminate.
    + destruct (IH st' (seen ++ [(key, entry)])) as (reached & Hv & Hc).
      exists ((key, entry) :: reached). split.
      * by rewrite Hv, <- app_assoc.
      * rewrite Hc, (bind_entry_own_calls _ _ _ _ _ _ _ Hrun), <- app_assoc.
        cbn [flat_map]. do 2 f_equal. apply flat_map_ext. intros p.
        apply own_calls_length.
        by rewrite (bind_entry_heap_length _ _ _ _ _ _ _ Hrun).
Qed.

(** A loop that raises nothing has reached every entry, each resolvable. *)
Lemma bind_loop_complete this mesh scene entries st seen :
  thrown (bind_loop this mesh scene entries st seen) = None ->
  visited (bind_loop this mesh scene entries st seen) = seen ++ entries /\
  Forall (fun p => resolvable p.2 = true) entries.
Proof.
  revert st seen. induction entries as [|[key entry] rest IH]; intros st seen;
    cbn [bind_loop].
  - intros _. by rewrite app_nil_r.
  - pose proof (bind_entry_resolvable this mesh scene key entry st) as Hres.
    destruct (bind_entry this mesh scene key entry st) as [e|st'] eqn:Hrun;
      [discriminate|].
    intros Hnone. destruct (IH _ _ Hnone) as [Hv Hall]. split.
    + by rewrite Hv, <- app_assoc.
    + constructor; [|exact Hall]. cbn.
      destruct (resolvable entry); [reflexivity | discriminate].
Qed.

(** The first entry that is not resolvable ends the loop. *)
Lemma bind_loop_stops this mesh scene (before after : Ledger) key entry st seen :
  Forall (fun p => resolvable p.2 = true) before ->
  resolvable entry = false ->
  let r := bind_loop this mesh scene (before ++ (key, entry) :: after) st seen in
  thrown r = Some (TypeError "value.getClassName is not a function") /\
  visited r = seen ++ before ++ [(key, entry)].
Proof.
  intros Hbefore Hbad. revert st seen.
  induction Hbefore as [|[k e] before Hres _ IH]; intros st seen;
    cbn [app bind_loop].
  - pose proof (bind_entry_resolvable this mesh scene key entry st) as Hrun.
    rewrite Hbad in Hrun. by rewrite Hrun.
  - pose proof (bind_entry_resolvable this mesh scene k e st) as Hrun.
    cbn in Hres. rewrite Hres in Hrun. destruct Hrun as [st' ->].
    destruct (IH st' (seen ++ [(k, e)])) as [Ht Hv]. split; [exact Ht|].
    by rewrite Hv, <- app_assoc.
Qed.

Lemma own_calls_in_order this mesh scene (h : Heap) (l : Ledger) :
  map call_name (flat_map (own_calls this mesh scene h) l)
  `sublist_of` ledger_keys l.
Proof.
  induction l as [|p l IH]; cbn [flat_map map ledger_keys]; [constructor|].
  rewrite map_app.
  pose proof (own_calls_at_most_one this mesh scene h p) as Hone.
  pose proof (own_calls_named this mesh scene h p) as Hname.
  destruct (own_calls this mesh scene h p) as [|c [|c' rest]].
  - apply sublist_cons. exact IH.
  - cbn [map app]. rewrite (Hname c) by left. apply sublist_skip. exact IH.
  - cbn in Hone. lia.
Qed.

Lemma onBind_calls_flat this mesh scene (h : Heap) :
  bs_calls (final (onBind this mesh scene h)) =
  flat_map (own_calls this mesh scene h) (visited (onBind this mesh scene h)).
Proof.
  unfold onBind. destruct (_shaderMaterial this); [|reflexivity].
  destruct (bind_loop_calls this mesh scene (_uniformLedger this)
              {| bs_heap := h; bs_calls := [] |} [])
    as (reached & -> & ->). reflexivity.
Qed.

(** X4: the calls a bind makes are exactly those of the entries it has
    reached, in the order of the ledger: each entry contributes what it would
    push if it were bound alone, which is one call at most, for its own
    name. *)
Theorem onBind_calls this mesh scene (h : Heap) :
  let r := onBind this mesh scene h in
  bs_calls (final r) = flat_map (own_calls this mesh scene h) (visited r) /\
  (forall p, length (own_calls this mesh scene h p) <= 1) /\
  (forall p c, c ∈ own_calls this mesh scene h p -> call_name c = p.1) /\
  map call_name (bs_calls (final r)) `sublist_of` ledger_keys (visited r).
Proof.
  intros r. subst r.
  split; [apply onBind_calls_flat|]. split; [apply own_calls_at_most_one|].
  split; [apply own_calls_named|].
  rewrite onBind_calls_flat. apply own_calls_in_order.
Qed.

Lemma onBind_completes_visited this mesh scene (h : Heap) :
  thrown (onBind this mesh scene h) = None ->
  visited (onBind this mesh scene h) = ledger this.
Proof.
  unfold onBind, ledger. destruct (_shaderMaterial this); [|discriminate].
  intros Hnone. by destruct (bind_loop_complete _ _ _ _ _ _ Hnone) as [-> _].
Qed.

(** X5: a bind raises nothing exactly when the helper has its shader
    material and every entry of the ledger is resolvable; it has then reached
    the whole ledger. *)
Theorem onBind_completes_iff this mesh scene (h : Heap) :
  let r := onBind this mesh scene h in
  (thrown r = None <->
   _shaderMaterial this <> None /\
   forall key entry, (key, entry) ∈ ledger this -> resolvable entry = true) /\
  (thrown r = None -> visited r = ledger this).
Proof.
  intros r. subst r. split; [split|].
  - unfold onBind, ledger. destruct (_shaderMaterial this); [|discriminate].
    intros Hnone. split; [done|].
    destruct (bind_loop_complete _ _ _ _ _ _ Hnone) as [_ Hall].
    rewrite Forall_forall in Hall. intros key entry Hin. exact (Hall _ Hin).
  - intros [Hsm Hall]. by apply onBind_resolvable.
  - apply onBind_completes_visited.
Qed.

(** X6: when the helper has its shader material, the first entry that is not
    resolvable ends the bind with a [TypeError]: the entries before it have
    been bound, that entry is the last one reached, and no entry after it is
    looked at. A helper without shader material raises before any entry. *)
Theorem onBind_stops_at_first_unresolvable this mesh scene (h : Heap)
    (before after : Ledger) key entry :
  ledger this = before ++ (key, entry) :: after ->
  (forall p, p ∈ before -> resolvable p.2 = true) ->
  resolvable entry = false ->
  let r := onBind this mesh scene h in
  match _shaderMaterial this with
  | Some _ =>
      thrown r = Some (TypeError "value.getClassName is not a function") /\
      visited r = before ++ [(key, entry)] /\
      bs_calls (final r) = flat_map (own_calls this mesh scene h) before
  | None =>
      thrown r = Some (TypeError "Cannot read properties of null") /\
      visited r = [] /\ bs_calls (final r) = [] /\ bs_heap (final r) = h
  end.
Proof.
  intros Hledger Hbefore Hbad r.
  pose proof (onBind_calls_flat this mesh scene h) as Hcalls. fold r in Hcalls.
  subst r. unfold onBind, ledger in *.
  destruct (_shaderMaterial this); [|done].
  rewrite Hledger in *.
  destruct (bind_loop_stops this mesh scene before after key entry
              {| bs_heap := h; bs_calls := [] |} []) as [Ht Hv];
    [by apply Forall_forall | exact Hbad |].
  cbn [app] in Hv. split; [exact Ht|]. split; [exact Hv|].
  rewrite Hcalls, Hv, flat_map_app. cbn [flat_map].
  unfold own_calls at 2. cbn [fst snd].
  pose proof (bind_entry_resolvable this mesh scene key entry
                {| bs_heap := h; bs_calls := [] |}) as Hrun.
  rewrite Hbad in Hrun. rewrite Hrun. by rewrite !app_nil_r.
Qed.

(** X7: a bind reads the heap for its size only: on two heaps of the same
    size it raises the same, makes the same calls with the same arguments
    and reaches the same entries. What the scratch matrices held before the
    bind never reaches the effect. *)
Theorem onBind_ignores_heap_contents this mesh scene (h1 h2 : Heap) :
  length h1 = length h2 ->
  thrown (onBind this mesh scene h1) = thrown (onBind this mesh scene h2) /\
  bs_calls (final (onBind this mesh scene h1)) =
    bs_calls (final (onBind this mesh scene h2)) /\
  visited (onBind this mesh scene h1) = visited (onBind this mesh scene h2).
Proof.
  intros Hlen. unfold onBind. destruct (_shaderMaterial this); [|done].
  destruct (bind_loop_summary this mesh scene (_uniformLedger this))
    as (err & w & c & reached & _ & _ & _ & _ & Hloop).
  rewrite !Hloop. cbn. by rewrite Hlen.
Qed.

End BindFacts.

(** ** The calls made for one name *)

Section CallsForName.

Context {ML : MatrixLib} {SV : NodeMaterialSystemValues}.

Implicit Types (this : NodeMaterialRuntimeHelper) (mesh : AbstractMesh)
  (scene : Scene) (key : string) (entry : IUniformLedgerEntry).

Lemma filter_own_calls_other this mesh scene (h : Heap) key
    (p : string * IUniformLedgerEntry) :
  p.1 <> key ->
  filter (fun c => call_name c = key) (own_calls this mesh scene h p) = [].
Proof.
  intros Hne. pose proof (own_calls_named this mesh scene h p) as Hname.
  induction (own_calls this mesh scene h p) as [|c l IH]; [reflexivity|].
  rewrite filter_cons_False.
  - apply IH. intros c' Hc'. apply Hname. by right.
  - rewrite (Hname c) by left. exact Hne.
Qed.

Lemma filter_own_calls_same this mesh scene (h : Heap)
    (p : string * IUniformLedgerEntry) :
  filter (fun c => call_name c = p.1) (own_calls this mesh scene h p) =
  own_calls this mesh scene h p.
Proof.
  pose proof (own_calls_named this mesh scene h p) as Hname.
  induction (own_calls this mesh scene h p) as [|c l IH]; [reflexivity|].
  rewrite filter_cons_True by (apply Hname; left).
  f_equal. apply IH. intros c' Hc'. apply Hname. by right.
Qed.

Lemma filter_calls_absent this mesh scene (h : Heap) key (l : Ledger) :
  key ∉ ledger_keys l ->
  filter (fun c => call_name c = key) (flat_map (own_calls this mesh scene h) l)
  = [].
Proof.
  induction l as [|p l IH]; cbn [flat_map ledger_keys map]; [reflexivity|].
  intros [Hp Hl]%not_elem_of_cons. rewrite filter_app.
  rewrite filter_own_calls_other by congruence. by apply IH.
Qed.

Lemma filter_calls_present this mesh scene (h : Heap) key entry (l : Ledger) :
  NoDup (ledger_keys l) ->
  (key, entry) ∈ l ->
  filter (fun c => call_name c = key) (flat_map (own_calls this mesh scene h) l)
  = own_calls this mesh scene h (key, entry).
Proof.
  induction l as [|p l IH]; cbn [flat_map ledger_keys map].
  - intros _ Hin. by apply elem_of_nil in Hin.
  - intros [Hp Hnd]%NoDup_cons [<-|Hin]%elem_of_cons; rewrite filter_app.
    + change key with ((key, entry).1) at 1.
      rewrite filter_own_calls_same.
      rewrite filter_calls_absent by exact Hp. apply app_nil_r.
    + rewrite filter_own_calls_other, IH; try done.
      intros Heq. apply Hp. rewrite Heq.
      change key with ((key, entry).1). by apply list_elem_of_fmap_2.
Qed.

(** What a bind calls for one name, for a helper whose names are distinct. *)
Lemma onBind_calls_for this mesh scene (h : Heap) key :
  NoDup (ledger_keys (ledger this)) ->
  let r := onBind this mesh scene h in
  (forall entry, (key, entry) ∈ visited r ->
     filter (fun c => call_name c = key) (bs_calls (final r)) =
     own_calls this mesh scene h (key, entry)) /\
  (key ∉ ledger_keys (visited r) ->
     filter (fun c => call_name c = key) (bs_calls (final r)) = []).
Proof.
  intros Hnd r.
  destruct (onBind_summary this mesh scene h) as (_ & Hprefix & _).
  fold r in Hprefix. subst r. rewrite onBind_calls_flat. split.
  - intros entry Hin. apply filter_calls_present; [|exact Hin].
    destruct Hprefix as [rest Hrest]. rewrite Hrest in Hnd.
    unfold ledger_keys in *. rewrite map_app in Hnd.
    by apply NoDup_app in Hnd as [? _].
  - apply filter_calls_absent.
Qed.

(** X8: in a bind of a helper, after anything that happened to it since its
    construction, the calls made for a name are those of the entry under that
    name, as if that entry were bound alone; a name whose entry the bind has
    not reached receives no call. The other entries of the ledger have no
    part in what is pushed for a name. *)
Theorem calls_for_name (h0 : Heap) (actions : list Action) mesh scene key :
  let s := run (constructor h0) actions in
  let r := onBind (helper s) mesh scene (heap s) in
  (forall entry, (key, entry) ∈ visited r ->
     filter (fun c => call_name c = key) (bs_calls (final r)) =
     own_calls (helper s) mesh scene (heap s) (key, entry)) /\
  (key ∉ ledger_keys (visited r) ->
     filter (fun c => call_name c = key) (bs_calls (final r)) = []).
Proof.
  intros s r. apply onBind_calls_for.
  by destruct (run_consistent h0 actions) as (_ & _ & _ & Hnd).
Qed.

(** X9: an assignment [ledger[key] = entry] by a caller takes effect at the
    next bind: if that bind raises nothing, what it pushes for [key] is what
    the assigned entry pushes, whatever was under [key] before; the entries
    under the other names are the ones that were there. *)
Theorem assigned_entry_is_bound (h0 : Heap) (actions : list Action) mesh scene
    key entry :
  let s0 := run (constructor h0) actions in
  let s := step s0 (Assign key entry) in
  let r := onBind (helper s) mesh scene (heap s) in
  thrown r = None ->
  ledger_get (ledger (helper s)) key = Some entry /\
  (forall name, name <> key ->
     ledger_get (ledger (helper s)) name = ledger_get (ledger (helper s0)) name) /\
  filter (fun c => call_name c = key) (bs_calls (final r)) =
    own_calls (helper s) mesh scene (heap s) (key, entry).
Proof.
  intros s0 s r Hnone.
  assert (Hget : forall name,
            ledger_get (ledger (helper s)) name =
            if String.eqb key name then Some entry
            else ledger_get (ledger (helper s0)) name).
  { intros name. subst s. cbn. apply ledger_get_set. }
  assert (Hkey : ledger_get (ledger (helper s)) key = Some entry).
  { by rewrite Hget, String.eqb_refl. }
  split; [exact Hkey|]. split.
  - intros name Hne. rewrite Hget.
    by destruct (String.eqb_spec key name); [congruence|].
  - assert (Hnd : NoDup (ledger_keys (ledger (helper s)))).
    { pose proof (run_consistent h0 (actions ++ [Assign key entry]))
        as (_ & _ & _ & Hnd).
      unfold run in Hnd. rewrite fold_left_app in Hnd. exact Hnd. }
    destruct (onBind_calls_for (helper s) mesh scene (heap s) key Hnd)
      as [Hpresent _].
    apply Hpresent.
    destruct (onBind_completes_visited (helper s) mesh scene (heap s) Hnone).
    by apply ledger_get_elem_of.
Qed.

End CallsForName.

(** ** The heap during a bind *)

Section HeapDuringBind.

Context {ML : MatrixLib} {SV : NodeMaterialSystemValues}.

Implicit Types (this : NodeMaterialRuntimeHelper) (mesh : AbstractMesh)
  (scene : Scene) (key : string) (entry : IUniformLedgerEntry) (st : BindState)
  (entries seen : Ledger).

(** The body of the loop assigns to a scratch matrix of the helper, or to
    nothing. *)
Lemma bind_entry_heap_cases this mesh scene key entry st st' :
  bind_entry this mesh scene key entry st = inr st' ->
  bs_heap st' = bs_heap st \/
  bs_heap st' =
    <[_cachedWorldViewMatrix this :=
        multiply (getWorldMatrix mesh) (getViewMatrix scene)]> (bs_heap st) \/
  bs_heap st' =
    <[_cachedWorldViewProjectionMatrix this :=
        multiply (getWorldMatrix mesh) (getTransformMatrix scene)]> (bs_heap st).
Proof.
  unfold bind_entry, bind_direct_value, bind_system_value, bind_class,
    push_scratch, set_heap, multiplyToRef, push.
  repeat case_match; intros; simplify_eq; cbn; auto.
Qed.

Lemma bind_loop_heap_frame this mesh scene entries (l : nat) :
  l <> _cachedWorldViewMatrix this ->
  l <> _cachedWorldViewProjectionMatrix this ->
  forall st seen,
    bs_heap (final (bind_loop this mesh scene entries st seen)) !! l =
    bs_heap st !! l.
Proof.
  intros Hwv Hwvp. induction entries as [|[key entry] rest IH]; intros st seen;
    cbn [bind_loop]; [reflexivity|].
  destruct (bind_entry this mesh scene key entry st) as [e|st'] eqn:Hrun;
    [reflexivity|].
  rewrite IH.
  destruct (bind_entry_heap_cases _ _ _ _ _ _ _ Hrun) as [->|[->| ->]];
    [reflexivity| |]; by rewrite list_lookup_insert_ne.
Qed.

(** X10: a bind writes to the two scratch matrices of the helper and to no
    other matrix: every other cell of the heap holds after the bind what it
    held before, and the heap has the same size. *)
Theorem onBind_heap_frame this mesh scene (h : Heap) (l : nat) :
  l <> _cachedWorldViewMatrix this ->
  l <> _cachedWorldViewProjectionMatrix this ->
  bs_heap (final (onBind this mesh scene h)) !! l = h !! l /\
  length (bs_heap (final (onBind this mesh scene h))) = length h.
Proof.
  intros Hwv Hwvp. split; [|apply onBind_heap_length].
  unfold onBind. destruct (_shaderMaterial this); [|reflexivity].
  by rewrite bind_loop_heap_frame.
Qed.

(** The case [WorldView] of the [switch]. *)
Lemma bind_system_value_wv this mesh scene key st :
  enum_ok ->
  bind_system_value this mesh scene key WorldView st =
  push_scratch key (_cachedWorldViewMatrix this)
    (set_heap (multiplyToRef (getWorldMatrix mesh) (getViewMatrix scene)
                 (_cachedWorldViewMatrix this) (bs_heap st)) st).
Proof.
  intros Hok. unfold bind_system_value.
  rewrite (enum_ok_distinct 1 0 _ _ Hok eq_refl eq_refl) by lia.
  by rewrite Z.eqb_refl.
Qed.

Lemma bind_loop_keeps_wv this mesh scene entries :
  _cachedWorldViewMatrix this <> _cachedWorldViewProjectionMatrix this ->
  forall st seen,
    bs_heap st !! _cachedWorldViewMatrix this =
      Some (multiply (getWorldMatrix mesh) (getViewMatrix scene)) ->
    bs_heap (final (bind_loop this mesh scene entries st seen))
      !! _cachedWorldViewMatrix this =
      Some (multiply (getWorldMatrix mesh) (getViewMatrix scene)).
Proof.
  intros Hne. induction entries as [|[key entry] rest IH]; intros st seen Hcell;
    cbn [bind_loop]; [exact Hcell|].
  destruct (bind_entry this mesh scene key entry st) as [e|st'] eqn:Hrun;
    [exact Hcell|].
  apply IH.
  destruct (bind_entry_heap_cases _ _ _ _ _ _ _ Hrun) as [->|[->| ->]].
  - exact Hcell.
  - apply list_lookup_insert_eq. by apply lookup_lt_Some in Hcell.
  - by rewrite list_lookup_insert_ne.
Qed.

Lemma bind_loop_resolves_wv this mesh scene entries :
  enum_ok ->
  _cachedWorldViewMatrix this <> _cachedWorldViewProjectionMatrix this ->
  forall st seen key entry,
    _cachedWorldViewMatrix this < length (bs_heap st) ->
    (key, entry) ∈ visited (bind_loop this mesh scene entries st seen) ->
    systemValueType entry = Some WorldView ->
    (key, entry) ∈ seen \/
    bs_heap (final (bind_loop this mesh scene entries st seen))
      !! _cachedWorldViewMatrix this =
      Some (multiply (getWorldMatrix mesh) (getViewMatrix scene)).
Proof.
  intros Hok Hne.
  assert (Hnz : WorldView <> 0%Z)
    by (apply enum_ok_nonzero; [exact Hok | by repeat constructor]).
  induction entries as [|[k e] rest IH]; intros st seen key entry Hlen Hin Hkind;
    cbn [bind_loop] in *; [by left|].
  destruct (bind_entry this mesh scene k e st) as [err|st'] eqn:Hrun.
  - cbn in Hin. apply elem_of_app in Hin as [Hin|Hin]; [by left|].
    apply list_elem_of_singleton in Hin. injection Hin as -> ->.
    rewrite (bind_entry_system _ _ _ _ _ _ _ Hkind Hnz) in Hrun. discriminate.
  - assert (Hlen' : _cachedWorldViewMatrix this < length (bs_heap st'))
      by (by rewrite (bind_entry_heap_length _ _ _ _ _ _ _ Hrun)).
    destruct (IH st' (seen ++ [(k, e)]) key entry Hlen' Hin Hkind)
      as [Hseen|Hdone]; [|by right].
    apply elem_of_app in Hseen as [Hseen|Hhere]; [by left|]. right.
    apply list_elem_of_singleton in Hhere. injection Hhere as -> ->.
    apply bind_loop_keeps_wv; [exact Hne|].
    rewrite (bind_entry_system _ _ _ _ _ _ _ Hkind Hnz) in Hrun.
    injection Hrun as <-. rewrite (bind_system_value_wv _ _ _ _ _ Hok).
    cbn. by apply list_lookup_insert_eq.
Qed.

(** X11: take a helper after anything that happened to it since its
    construction, and a bind that reaches an entry of kind [WorldView]. The
    call for that entry hands [setMatrix] the cell the constructor allocated
    for [_cachedWorldViewMatrix], which is another cell than the one of
    [_cachedWorldViewProjectionMatrix] and did not exist before the
    construction; the matrix read from it is the product of the world matrix
    of the mesh by the view matrix of the scene, and the cell still holds that
    product when the bind ends. *)
Theorem world_view_scratch (h0 : Heap) (actions : list Action) mesh scene key
    entry :
  enum_ok ->
  let s := run (constructor h0) actions in
  let wv := _cachedWorldViewMatrix (helper (constructor h0)) in
  let r := onBind (helper s) mesh scene (heap s) in
  (key, entry) ∈ visited r ->
  systemValueType entry = Some WorldView ->
  h0 !! wv = None /\
  _cachedWorldViewMatrix (helper s) = wv /\
  _cachedWorldViewProjectionMatrix (helper s) <> wv /\
  own_calls (helper s) mesh scene (heap s) (key, entry) =
    [setMatrix key (Scratch wv)
       (multiply (getWorldMatrix mesh) (getViewMatrix scene))] /\
  setMatrix key (Scratch wv)
    (multiply (getWorldMatrix mesh) (getViewMatrix scene))
    ∈ bs_calls (final r) /\
  bs_heap (final r) !! wv =
    Some (multiply (getWorldMatrix mesh) (getViewMatrix scene)).
Proof.
  intros Hok s wv r Hin Hkind.
  destruct (run_consistent h0 actions) as (Hwv & Hwvp & Hlen & _).
  fold s in Hwv, Hwvp, Hlen.
  assert (Hcell : wv = length h0) by reflexivity.
  assert (Hsame : _cachedWorldViewMatrix (helper s) = wv) by congruence.
  assert (Hnz : WorldView <> 0%Z)
    by (apply enum_ok_nonzero; [exact Hok | by repeat constructor]).
  assert (Hown : own_calls (helper s) mesh scene (heap s) (key, entry) =
                 [setMatrix key (Scratch wv)
                    (multiply (getWorldMatrix mesh) (getViewMatrix scene))]).
  { unfold own_calls. cbn [fst snd].
    rewrite (bind_entry_system _ _ _ _ _ _ _ Hkind Hnz).
    rewrite (bind_system_value_wv _ _ _ _ _ Hok).
    unfold push_scratch, push, set_heap, multiplyToRef. cbn.
    rewrite Hsame. rewrite list_lookup_total_insert_eq by lia. reflexivity. }
  split; [apply lookup_ge_None_2; lia|]. split; [exact Hsame|].
  split; [lia|]. split; [exact Hown|]. split.
  - subst r. rewrite onBind_calls_flat. apply list_elem_of_In, in_flat_map.
    exists (key, entry). split; [by apply list_elem_of_In|].
    rewrite Hown. by left.
  - rewrite <- Hsame. subst r. unfold onBind in *.
    destruct (_shaderMaterial (helper s)); [|by apply elem_of_nil in Hin].
    destruct (bind_loop_resolves_wv (helper s) mesh scene
                (_uniformLedger (helper s)) Hok ltac:(lia)
                {| bs_heap := heap s; bs_calls := [] |} [] key entry)
      as [Hnil|Hdone]; try done.
    + cbn. lia.
    + by apply elem_of_nil in Hnil.
Qed.

End HeapDuringBind.

(** ** More on the build *)

Section BuildFacts.

Context {ML : MatrixLib}.

Implicit Types (b : InputBlock) (acc : list string * Ledger) (name : string).

Lemma ledger_keys_set_prefix (l : Ledger) name (e : IUniformLedgerEntry) :
  ledger_keys l `prefix_of` ledger_keys (ledger_set l name e).
Proof.
  rewrite ledger_keys_set. case_decide; [done|]. by apply prefix_app_r.
Qed.

Lemma record_input_blocks_prefix (blocks : list InputBlock) acc :
  ledger_keys (snd acc)
  `prefix_of` ledger_keys (snd (fold_left record_input_block blocks acc)).
Proof.
  revert acc. induction blocks as [|b blocks IH]; intros acc; cbn [fold_left];
    [done|].
  etrans; [|apply IH]. rewrite record_input_block_keys.
  destruct (isUniform b); [apply ledger_keys_set_prefix | done].
Qed.

(** With distinct uniform names, the ledger gets its names in the order of
    the blocks. *)
Lemma record_input_blocks_keys_order (blocks : list InputBlock) acc :
  NoDup (ledger_keys (snd acc) ++
         map associatedVariableName (filter (fun b => isUniform b = true) blocks)) ->
  ledger_keys (snd (fold_left record_input_block blocks acc)) =
  ledger_keys (snd acc) ++
  map associatedVariableName (filter (fun b => isUniform b = true) blocks).
Proof.
  revert acc. induction blocks as [|b blocks IH]; intros acc Hnd;
    cbn [fold_left].
  - cbn. by rewrite app_nil_r.
  - destruct (isUniform b) eqn:Hu.
    + rewrite filter_cons_True in * by exact Hu. cbn [map] in *.
      assert (Hkeys : ledger_keys (snd (record_input_block acc b)) =
                      ledger_keys (snd acc) ++ [associatedVariableName b]).
      { rewrite record_input_block_keys, Hu, ledger_keys_set.
        case_decide as Hin; [|reflexivity].
        apply NoDup_app in Hnd as (_ & Hdisj & _). exfalso.
        apply (Hdisj _ Hin). left. }
      rewrite IH; rewrite Hkeys, <- app_assoc; [reflexivity | exact Hnd].
    + rewrite filter_cons_False in * by congruence.
      assert (Hkeys : ledger_keys (snd (record_input_block acc b)) =
                      ledger_keys (snd acc))
        by (by rewrite record_input_block_keys, Hu).
      rewrite IH; rewrite Hkeys; [reflexivity | exact Hnd].
Qed.

(** X12: the build handler adds to the ledger it finds. A name that no
    uniform input block has keeps the entry a caller assigned to it, and the
    names already there keep their places at the head of the ledger; a name
    that a uniform input block has gets the entry of the last such block,
    whatever a caller had assigned to it. *)
Theorem build_extends_ledger (material : NodeMaterial) (s : State) :
  build_observer s = true ->
  let before := ledger (helper s) in
  let after := ledger (helper (notify_build material s)) in
  ledger_keys before `prefix_of` ledger_keys after /\
  (forall name,
     (forall b, b ∈ getInputBlocks material -> isUniform b = true ->
                associatedVariableName b <> name) ->
     ledger_get after name = ledger_get before name) /\
  (forall pre b post,
     getInputBlocks material = pre ++ b :: post ->
     isUniform b = true ->
     (forall b', b' ∈ post -> isUniform b' = true ->
                 associatedVariableName b' <> associatedVariableName b) ->
     ledger_get after (associatedVariableName b) =
     Some (if isSystemValue b then
             {| systemValueType := systemValue b; directValue := JsUndefined |}
           else if truthy (value b) then
             {| systemValueType := None; directValue := value b |}
           else empty_entry)).
Proof.
  intros Hobs before after. subst before after. unfold notify_build.
  rewrite Hobs, onBuild_ledger. cbn [helper]. unfold record_input_blocks, ledger.
  split; [|split].
  - exact (record_input_blocks_prefix _ ([], _uniformLedger (helper s))).
  - intros name Hother.
    exact (record_input_blocks_get_other _ ([], _uniformLedger (helper s)) name
             Hother).
  - intros pre b post -> Hu Hpost.
    exact (record_input_blocks_get_last pre post b _ Hu Hpost).
Qed.

(** X13: the list of uniforms the shader material is created with holds the
    names of the uniform input blocks, in the order of the blocks. When the
    ledger was empty before the build, a name is in that list exactly when it
    has an entry in the ledger, and if the names of the uniform input blocks
    are distinct the ledger enumerates them in the order of the list. *)
Theorem build_uniforms_match_ledger (material : NodeMaterial) (s : State) :
  _uniformLedger (helper s) = [] ->
  build_observer s = true ->
  let s' := notify_build material s in
  let names := map associatedVariableName
                 (filter (fun b => isUniform b = true) (getInputBlocks material)) in
  exists sm,
    _shaderMaterial (helper s') = Some sm /\
    sm_uniforms sm = names /\
    (forall name, name ∈ sm_uniforms sm <-> name ∈ ledger_keys (ledger (helper s'))) /\
    (NoDup names -> ledger_keys (ledger (helper s')) = sm_uniforms sm).
Proof.
  intros Hempty Hobs s' names. subst s'. unfold notify_build. rewrite Hobs.
  eexists. split; [apply onBuild_shaderMaterial|]. cbn [sm_uniforms helper].
  rewrite onBuild_ledger. cbn [helper]. rewrite Hempty.
  unfold record_input_blocks. rewrite record_input_blocks_uniforms. cbn [fst app].
  split; [reflexivity|]. split.
  - intros name. rewrite record_input_blocks_keys. cbn [snd ledger_keys map].
    fold names. subst names. rewrite list_elem_of_fmap. split.
    + intros (b & -> & [Hu Hb]%list_elem_of_filter). right. by exists b.
    + intros [Hnil|(b & Hb & Hu & <-)]; [by apply elem_of_nil in Hnil|].
      exists b. split; [reflexivity|]. by apply list_elem_of_filter.
  - intros Hnd.
    exact (record_input_blocks_keys_order (getInputBlocks material) ([], []) Hnd).
Qed.

End BuildFacts.

(** ** The shader materials of a helper *)

Section Accounting.

Context {ML : MatrixLib} {SV : NodeMaterialSystemValues}.

Lemma created_app (l1 l2 : list Event) : created (l1 ++ l2) = created l1 ++ created l2.
Proof. apply flat_map_app. Qed.

Lemma disposed_app (l1 l2 : list Event) :
  disposed (l1 ++ l2) = disposed l1 ++ disposed l2.
Proof. apply flat_map_app. Qed.

Lemma created_notified (sm : ShaderMaterial) (observers : list nat) :
  created (map (fun o => ShaderMaterialNotified o sm) observers) = [] /\
  disposed (map (fun o => ShaderMaterialNotified o sm) observers) = [].
Proof. induction observers as [|o l [IH1 IH2]]; by split. Qed.

Lemma onBuild_events (material : NodeMaterial) (s : State) :
  exists sm,
    _shaderMaterial (helper (onBuild material s)) = Some sm /\
    created (events (onBuild material s)) = created (events s) ++ [sm] /\
    disposed (events (onBuild material s)) = disposed (events s) /\
    build_observer (onBuild material s) = build_observer s.
Proof.
  unfold onBuild. destruct (record_input_blocks _ _) as [uniforms l].
  eexists. split; [reflexivity|]. cbn [events build_observer].
  rewrite created_app, disposed_app. cbn [created disposed flat_map].
  destruct (created_notified
              {| sm_name := "shaderMaterial";
                 sm_vertexSource := vertex (compilationStrings material);
                 sm_fragmentSource := fragment (compilationStrings material);
                 sm_uniforms := uniforms |}
              (onShaderMaterialCreatedObservable (helper s))) as [Hc Hd].
  unfold created, disposed in Hc, Hd. rewrite Hc, Hd.
  by rewrite !app_nil_r.
Qed.

Lemma step_accounted (s : State) (a : Action) :
  accounted s -> accounted (step s a).
Proof.
  intros (Hpending & Hone & Hheld).
  destruct a as [material| |mesh scene|key entry|o]; cbn [step];
    try (split; [exact Hpending | split; [exact Hone | exact Hheld]]).
  - unfold notify_build. destruct (build_observer s) eqn:Hobs;
      [|split; [congruence | split; [exact Hone | exact Hheld]]].
    specialize (Hpending eq_refl).
    assert (Hnone : _shaderMaterial (helper s) = None).
    { destruct (_shaderMaterial (helper s)); [|reflexivity].
      destruct Hheld as [Hc _]. congruence. }
    rewrite Hnone in Hheld.
    destruct (onBuild_events material
                {| helper := helper s; heap := heap s; build_observer := false;
                   events := events s |}) as (sm & Hsm & Hc & Hd & Hb).
    unfold accounted. rewrite Hsm, Hc, Hd, Hb.
    cbn [events build_observer]. rewrite Hheld, Hpending.
    split; [discriminate|]. split; [cbn; lia | done].
  - unfold accounted, dispose. cbn [helper events build_observer].
    destruct (_shaderMaterial (helper s)) as [sm|].
    + destruct Hheld as [Hc Hd].
      rewrite created_app, disposed_app, Hc, Hd. cbn.
      split; [intros Hb; specialize (Hpending Hb); congruence|].
      split; [lia | reflexivity].
    + split; [exact Hpending | split; [exact Hone | exact Hheld]].
Qed.

(** X14: over the life of a helper, whatever the order of build signals,
    disposals, binds and assignments, at most one shader material is
    created; while the helper holds a shader material it is that one and it
    has not been disposed; while it holds none, every shader material
    created has been disposed, once. *)
Theorem shader_material_accounting (h0 : Heap) (actions : list Action) :
  let s := run (constructor h0) actions in
  length (created (events s)) <= 1 /\
  match _shaderMaterial (helper s) with
  | Some sm => created (events s) = [sm] /\ disposed (events s) = []
  | None => disposed (events s) = created (events s)
  end.
Proof.
  intros s. cut (accounted s); [by intros (_ & ? & ?)|]. subst s. unfold run.
  assert (Hinit : accounted (constructor h0)) by (repeat split; cbn; lia).
  revert Hinit. generalize (constructor h0).
  induction actions as [|a actions IH]; intros s Hs; cbn [fold_left];
    [exact Hs|].
  apply IH. by apply step_accounted.
Qed.

End Accounting.

(** * Properties of the fluid renderer of a scene *)

Module FluidFacts.

Import Fluid.

Lemma replay_snoc (l : list Call) (c : Call) :
  replay (l ++ [c]) = observe (replay l) c.
Proof. unfold replay. by rewrite fold_left_app. Qed.

Lemma new_scene_disciplined : disciplined new_scene.
Proof.
  exists {| alive := []; known := [] |}. cbn.
  repeat split; intros r Hr; by apply elem_of_nil in Hr.
Qed.

Lemma enable_disciplined (s : Scene) :
  disciplined s -> disciplined (fst (enableFluidRenderer s)).
Proof.
  intros (m & Hm & Halive & Hknown & Hsub & Hcalls).
  unfold enableFluidRenderer, held in *.
  destruct (_fluidRenderer s) as [r|] eqn:Hcur; cbn [fst].
  - exists m. unfold held. by rewrite Hcur.
  - exists {| alive := constructed s :: alive m;
              known := constructed s :: known m |}.
    cbn [calls constructed _fluidRenderer alive known].
    rewrite replay_snoc, Hm. cbn [observe].
    destruct (decide (constructed s ∈ known m)) as [Hin|_];
      [apply Hknown in Hin; lia|].
    split; [reflexivity|]. split; [by rewrite Halive|]. split; [|split].
    + intros r [->|Hr]%elem_of_cons; [lia|]. apply Hknown in Hr. lia.
    + intros r [->|Hr]%elem_of_cons; [left | right; auto].
    + intros r [Hr|Hr]%elem_of_app.
      * right. auto.
      * apply list_elem_of_singleton in Hr. injection Hr as ->. left.
Qed.

Lemma disable_disciplined (s : Scene) :
  disciplined s -> disciplined (disableFluidRenderer s).
Proof.
  intros (m & Hm & Halive & Hknown & Hsub & Hcalls).
  unfold disableFluidRenderer, held in *.
  destruct (_fluidRenderer s) as [r|] eqn:Hcur.
  - exists {| alive := []; known := known m |}.
    cbn [calls constructed _fluidRenderer alive known].
    rewrite replay_snoc, Hm. cbn [observe]. rewrite Halive.
    rewrite decide_True by left.
    rewrite filter_cons_False by (intros Hne; by apply Hne).
    split; [reflexivity|]. split; [reflexivity|]. split; [exact Hknown|].
    split.
    + intros x Hx. by apply elem_of_nil in Hx.
    + intros x [Hx|Hx]%elem_of_app; [auto|].
      by apply list_elem_of_singleton in Hx.
  - exists m. cbn [calls constructed _fluidRenderer].
    split; [exact Hm|]. split; [exact Halive|]. split; [exact Hknown|].
    split; [exact Hsub | exact Hcalls].
Qed.

Lemma hook_disciplined (s : Scene) (c : FluidRenderer -> Call) :
  (forall r m, r ∈ alive m -> observe (Some m) (c r) = Some m) ->
  (forall r r', c r <> Constructed r') ->
  disciplined s ->
  disciplined match fluidRenderer s with
              | Some r =>
                  {| _fluidRenderer := _fluidRenderer s;
                     constructed := constructed s;
                     calls := calls s ++ [c r] |}
              | None => s
              end.
Proof.
  intros Hobs Hother Hs.
  unfold fluidRenderer. destruct (_fluidRenderer s) as [r|] eqn:Hcur;
    [|exact Hs].
  destruct Hs as (m & Hm & Halive & Hknown & Hsub & Hcalls).
  exists m. unfold held in *. cbn [calls constructed _fluidRenderer].
  rewrite Hcur in *. rewrite replay_snoc, Hm.
  rewrite Hobs by (rewrite Halive; left).
  repeat split; try done.
  intros x [Hx|Hx]%elem_of_app; [auto|].
  apply list_elem_of_singleton in Hx. by apply eq_sym, Hother in Hx.
Qed.

Lemma step_disciplined (s : Scene) (o : Op) :
  disciplined s -> disciplined (step s o).
Proof.
  intros Hs. destruct o as [| | |camera| |]; cbn [step].
  - by apply enable_disciplined.
  - by apply disable_disciplined.
  - apply (hook_disciplined s PrepareRendering); [| |exact Hs].
    + intros r m Hr. cbn. by rewrite decide_True.
    + discriminate.
  - apply (hook_disciplined s (fun r => Render r camera)); [| |exact Hs].
    + intros r m Hr. cbn. by rewrite decide_True.
    + discriminate.
  - unfold rebuild. destruct (_fluidRenderer s); [|exact Hs].
    by apply enable_disciplined, disable_disciplined.
  - by apply disable_disciplined.
Qed.

Lemma run_disciplined (ops : list Op) : disciplined (run new_scene ops).
Proof.
  unfold run. generalize new_scene_disciplined. generalize new_scene.
  induction ops as [|o ops IH]; intros s Hs; cbn [fold_left]; [exact Hs|].
  by apply IH, step_disciplined.
Qed.

(** X15: enabling the fluid renderer of a scene that has one constructs
    nothing and returns the one it has; so a second [enableFluidRenderer] in
    a row leaves the scene as the first left it and returns the same
    renderer. The value returned is never [null] and is the value of the
    property [fluidRenderer] afterwards. *)
Theorem enable_idempotent (s : Scene) :
  let s1 := fst (enableFluidRenderer s) in
  let r1 := snd (enableFluidRenderer s) in
  enableFluidRenderer s1 = (s1, r1) /\
  is_Some r1 /\
  fluidRenderer s1 = r1 /\
  (forall r, _fluidRenderer s = Some r -> s1 = s /\ r1 = Some r).
Proof.
  unfold enableFluidRenderer, fluidRenderer.
  destruct (_fluidRenderer s) as [r|] eqn:Hcur; cbn.
  - rewrite Hcur. repeat split; eauto. all: congruence.
  - repeat split; eauto. all: discriminate.
Qed.

(** X16: [disableFluidRenderer] disposes the fluid renderer the scene has and
    no other, and leaves the scene without one; on a scene without a fluid
    renderer it does nothing, so that a second call in a row changes nothing.
    While the scene has no fluid renderer the two render hooks of the
    component and its [rebuild] leave the scene untouched, and the
    [dispose] of the component is that same disabling. *)
Theorem disable_idempotent (s : Scene) :
  fluidRenderer (disableFluidRenderer s) = None /\
  calls (disableFluidRenderer s) =
    calls s ++ match _fluidRenderer s with Some r => [Disposed r] | None => [] end /\
  disableFluidRenderer (disableFluidRenderer s) = disableFluidRenderer s /\
  _gatherActiveCameraRenderTargets (disableFluidRenderer s) =
    disableFluidRenderer s /\
  (forall camera, _afterCameraDraw camera (disableFluidRenderer s) =
                  disableFluidRenderer s) /\
  rebuild (disableFluidRenderer s) = disableFluidRenderer s /\
  dispose s = disableFluidRenderer s.
Proof.
  repeat split. unfold disableFluidRenderer. cbn.
  destruct (_fluidRenderer s); [reflexivity | by rewrite app_nil_r].
Qed.

(** X17: on a scene reached from a new one by enabling, disabling,
    rendering, rebuilding and disposing, [rebuild] with a fluid renderer in
    place disposes that renderer and installs one that was never constructed
    before: the scene does not go back to a renderer it has disposed.
    Without a fluid renderer in place [rebuild] does nothing. *)
Theorem rebuild_replaces (ops : list Op) :
  let s := run new_scene ops in
  match _fluidRenderer s with
  | Some r =>
      exists r',
        _fluidRenderer (rebuild s) = Some r' /\
        r' <> r /\
        (Constructed r' ∉ calls s) /\
        calls (rebuild s) = calls s ++ [Disposed r; Constructed r']
  | None => rebuild s = s
  end.
Proof.
  intros s. destruct (run_disciplined ops)
    as (m & Hm & Halive & Hknown & Hsub & Hcalls). fold s in Hm, Halive, Hknown, Hcalls.
  unfold rebuild, held in *.
  destruct (_fluidRenderer s) as [r|] eqn:Hcur; [|reflexivity].
  exists (constructed s). unfold enableFluidRenderer, disableFluidRenderer.
  cbn. rewrite Hcur. repeat split.
  - assert (r < constructed s); [|lia].
    apply Hknown, Hsub. rewrite Halive. left.
  - intros Hin. apply Hcalls, Hknown in Hin. lia.
  - by rewrite <- app_assoc.
Qed.

(** X18: the calls a scene and its component make on fluid renderers, over
    any sequence of enabling, disabling, render hooks, rebuilds and disposals
    from a new scene, obey the discipline of a disposable object: no renderer
    is constructed twice, none is rendered with or disposed before it is
    constructed or after it is disposed, none is disposed twice; and the
    renderers constructed and not yet disposed are exactly the one the scene
    holds, if it holds one. No renderer is leaked. *)
Theorem fluid_renderer_discipline (ops : list Op) :
  let s := run new_scene ops in
  exists m, replay (calls s) = Some m /\ alive m = held s.
Proof.
  intros s. destruct (run_disciplined ops) as (m & Hm & Halive & _).
  by exists m.
Qed.

End FluidFacts.

(** * The further properties at concrete helpers *)

(** [system_values_pushed] at the sample mesh and scene. *)
Lemma system_values_pushed_witness :
  let this := helper (run (ML := ScalarMatrices) (SV := Numbered)
                        (constructor []) [Build sample_material]) in
  let st := {| bs_heap := [scalar 1; scalar 1]; bs_calls := [] |} in
  let resolve := fun k : Z =>
    bind_entry (SV := Numbered) this sample_mesh sample_scene "u"
      {| systemValueType := Some k; directValue := JsNull |} st in
  let pushed := fun c : EffectCall =>
    inr (A := JsError) {| bs_heap := [scalar 1; scalar 1]; bs_calls := [c] |} in
  resolve 1%Z = pushed (setMatrix "u" SceneOwned (scalar 5)) /\
  resolve 2%Z = pushed (setMatrix "u" SceneOwned (scalar 2)) /\
  resolve 3%Z = pushed (setMatrix "u" SceneOwned (scalar 3)) /\
  resolve 4%Z = pushed (setMatrix "u" SceneOwned (scalar 6)) /\
  resolve 7%Z = pushed (bindEyePosition "u" true) /\
  resolve 8%Z = pushed (setColor3 "u" (Color3 0.5 0.5 0.5)) /\
  resolve 9%Z = pushed (setFloat "u" 0.016).
Proof.
  intros this st resolve pushed.
  exact (system_values_pushed (SV := Numbered) this sample_mesh sample_scene
           "u" JsNull st Numbered_ok).
Defined.

(** [unknown_kind_skipped] at a kind numbered 11. *)
Lemma unknown_kind_skipped_witness :
  let this := helper (run (ML := ScalarMatrices) (SV := Numbered)
                        (constructor []) [Build sample_material]) in
  let st := {| bs_heap := [scalar 1; scalar 1]; bs_calls := [] |} in
  bind_entry (SV := Numbered) this sample_mesh sample_scene "u_alpha"
    {| systemValueType := Some 11%Z; directValue := JsNumber 2.5 |} st = inr st.
Proof.
  intros this st.
  apply (unknown_kind_skipped (SV := Numbered) this sample_mesh sample_scene
           "u_alpha" 11%Z (JsNumber 2.5) st); [discriminate|].
  apply (bool_decide_unpack _). vm_compute. exact I.
Defined.

(** [direct_values_pushed] at an entry whose kind is [0]. *)
Lemma direct_values_pushed_witness :
  let this := helper (run (ML := ScalarMatrices) (SV := Numbered)
                        (constructor []) [Build sample_material]) in
  let st := {| bs_heap := [scalar 1; scalar 1]; bs_calls := [] |} in
  bind_entry (SV := Numbered) this sample_mesh sample_scene "u_tint"
    {| systemValueType := Some 0%Z;
       directValue := JsObj (Color4 1 0 0 0.5) |} st =
  inr {| bs_heap := [scalar 1; scalar 1];
         bs_calls := [setColor4 "u_tint" (Color4 1 0 0 0.5) (JsNumber 0.5)] |} /\
  bind_entry (SV := Numbered) this sample_mesh sample_scene "u_tint"
    {| systemValueType := Some 0%Z;
       directValue := JsObj (ClassInstance "Vector2") |} st = inr st.
Proof.
  intros this st.
  destruct (direct_values_pushed (SV := Numbered) this sample_mesh sample_scene
              "u_tint" (Some 0%Z) st eq_refl)
    as (_ & _ & _ & Hcolor & Hother & _).
  split; [apply Hcolor|]. apply Hother.
  apply (bool_decide_unpack _). vm_compute. exact I.
Defined.

(** [onBind_stops_at_first_unresolvable] at a ledger with a colour, a number
    and a matrix. *)
Lemma onBind_stops_at_first_unresolvable_witness :
  let tint := ("u_tint", {| systemValueType := None;
                            directValue := JsObj (Color3 1 0 0) |}) in
  let speed := {| systemValueType := None; directValue := JsNumber 2.5 |} in
  let world := ("u_World", {| systemValueType := Some 1%Z;
                              directValue := JsUndefined |}) in
  let s := run (ML := ScalarMatrices) (SV := Numbered) (constructor [])
             [Build float_material] in
  let this := with_ledger [tint; ("u_speed", speed); world] (helper s) in
  let r := onBind (SV := Numbered) this sample_mesh sample_scene (heap s) in
  thrown r = Some (TypeError "value.getClassName is not a function") /\
  visited r = [tint; ("u_speed", speed)] /\
  bs_calls (final r) = [setColor3 "u_tint" (Color3 1 0 0)].
Proof.
  intros tint speed world s this r.
  apply (onBind_stops_at_first_unresolvable (SV := Numbered) this sample_mesh
           sample_scene (heap s) [tint] [world] "u_speed" speed).
  - reflexivity.
  - intros p ->%list_elem_of_singleton. reflexivity.
  - reflexivity.
Defined.

(** [onBind_ignores_heap_contents] at two heaps of two cells. *)
Lemma onBind_ignores_heap_contents_witness :
  let this := helper (run (ML := ScalarMatrices) (SV := Numbered)
                        (constructor []) [Build sample_material]) in
  let h1 := [scalar 1; scalar 1] in
  let h2 := [scalar 8; scalar 9] in
  thrown (onBind (SV := Numbered) this sample_mesh sample_scene h1) =
    thrown (onBind (SV := Numbered) this sample_mesh sample_scene h2) /\
  bs_calls (final (onBind (SV := Numbered) this sample_mesh sample_scene h1)) =
    bs_calls (final (onBind (SV := Numbered) this sample_mesh sample_scene h2)) /\
  visited (onBind (SV := Numbered) this sample_mesh sample_scene h1) =
    visited (onBind (SV := Numbered) this sample_mesh sample_scene h2).
Proof.
  intros this h1 h2.
  apply (onBind_ignores_heap_contents (SV := Numbered) this sample_mesh
           sample_scene h1 h2).
  reflexivity.
Defined.

(** [assigned_entry_is_bound] at a colour assigned over the colour of the
    sample material. *)
Lemma assigned_entry_is_bound_witness :
  let entry := {| systemValueType := None;
                  directValue := JsObj (Color3 0 1 0) |} in
  let s := run (ML := ScalarMatrices) (SV := Numbered) (constructor [])
             [Build sample_material; Assign "u_tint" entry] in
  let r := onBind (SV := Numbered) (helper s) sample_mesh sample_scene (heap s) in
  thrown r = None /\
  ledger_get (ledger (helper s)) "u_tint" = Some entry /\
  filter (fun c => call_name c = "u_tint") (bs_calls (final r)) =
    [setColor3 "u_tint" (Color3 0 1 0)].
Proof.
  intros entry s r. split; [reflexivity|].
  destruct (assigned_entry_is_bound (ML := ScalarMatrices) (SV := Numbered) []
              [Build sample_material] sample_mesh sample_scene "u_tint" entry
              eq_refl) as (Hget & _ & Hcalls).
  split; [exact Hget | exact Hcalls].
Defined.

(** [onBind_heap_frame] at a cell allocated before the helper. *)
Lemma onBind_heap_frame_witness :
  let s := run (ML := ScalarMatrices) (SV := Numbered) (constructor [scalar 42])
             [Build sample_material] in
  let r := onBind (SV := Numbered) (helper s) sample_mesh sample_scene (heap s) in
  bs_heap (final r) !! 0 = Some (scalar 42) /\
  length (bs_heap (final r)) = 3.
Proof.
  intros s r.
  apply (onBind_heap_frame (SV := Numbered) (helper s) sample_mesh sample_scene
           (heap s) 0); discriminate.
Defined.

(** [world_view_scratch] at a material with the world-view matrix. *)
Lemma world_view_scratch_witness :
  let s := run (ML := ScalarMatrices) (SV := Numbered) (constructor [])
             [Build world_view_material] in
  let entry := {| systemValueType := Some 5%Z; directValue := JsUndefined |} in
  let r := onBind (SV := Numbered) (helper s) sample_mesh sample_scene (heap s) in
  ("u_wv", entry) ∈ visited r /\
  _cachedWorldViewMatrix (helper s) = 0 /\
  setMatrix "u_wv" (Scratch 0) (scalar 10) ∈ bs_calls (final r) /\
  bs_heap (final r) !! 0 = Some (scalar 10).
Proof.
  intros s entry r.
  assert (Hin : ("u_wv", entry) ∈ visited r) by (vm_compute; left).
  split; [exact Hin|].
  destruct (world_view_scratch (ML := ScalarMatrices) (SV := Numbered) []
              [Build world_view_material] sample_mesh sample_scene "u_wv"
              entry Numbered_ok Hin eq_refl)
    as (_ & Hwv & _ & _ & Hcall & Hcell).
  split; [exact Hwv|]. split; [exact Hcall | exact Hcell].
Defined.

(** [build_extends_ledger] at a ledger a caller has assigned to before the
    build. *)
Lemma build_extends_ledger_witness :
  let mine := {| systemValueType := None;
                 directValue := JsObj (Vector3 1 2 3) |} in
  let s := run (ML := ScalarMatrices) (SV := Numbered) (constructor [])
             [Assign "u_mine" mine; Assign "u_tint" mine] in
  let after := ledger (helper (notify_build sample_material s)) in
  ledger_keys (ledger (helper s)) `prefix_of` ledger_keys after /\
  ledger_get after "u_mine" = Some mine /\
  ledger_get after "u_tint" =
    Some {| systemValueType := None; directValue := JsObj (Color4 1 0 0 0.5) |}.
Proof.
  intros mine s after.
  destruct (build_extends_ledger (ML := ScalarMatrices) sample_material s
              eq_refl) as (Hprefix & Hother & Hlast).
  split; [exact Hprefix|]. split.
  - apply (Hother "u_mine").
    intros b Hb _. cbn in Hb. rewrite !elem_of_cons in Hb.
    destruct Hb as [->|[->|[->|[->|Hb]]]]; try discriminate.
    by apply elem_of_nil in Hb.
  - apply (Hlast [uniform_block "u_wvp" (Some 6%Z) JsUndefined;
                  uniform_block "u_params" (Some 10%Z) JsUndefined]
             (uniform_block "u_tint" None (JsObj (Color4 1 0 0 0.5)))
             [uniform_block "u_unused" None JsUndefined]);
      [reflexivity | reflexivity |].
    intros b' ->%list_elem_of_singleton _. discriminate.
Defined.

(** [build_uniforms_match_ledger] at the sample material. *)
Lemma build_uniforms_match_ledger_witness :
  let s' := notify_build sample_material (constructor (ML := ScalarMatrices) []) in
  exists sm,
    _shaderMaterial (helper s') = Some sm /\
    sm_uniforms sm = ["u_wvp"; "u_params"; "u_tint"; "u_unused"] /\
    ledger_keys (ledger (helper s')) = sm_uniforms sm.
Proof.
  intros s'.
  destruct (build_uniforms_match_ledger (ML := ScalarMatrices) sample_material
              (constructor (ML := ScalarMatrices) []) eq_refl eq_refl)
    as (sm & Hsm & Hnames & _ & Horder).
  exists sm. split; [exact Hsm|]. split; [exact Hnames|].
  apply Horder. apply (bool_decide_unpack _). vm_compute. exact I.
Defined.
